(** * ghetto.board: the renderer-side audio capture manager

    A shallow embedding of [src/preload/managers/AudioCaptureManagerPreload.ts].

    The class mutates its own fields and a handful of browser objects (Web
    Audio nodes, media-stream tracks, a websocket, the console and the IPC
    channel).  All of them live in one [State] record; every method is a
    computation in a small state-and-exception monad [JS], written in the
    order of the TypeScript statements.  What the browser decides (whether
    [getUserMedia] resolves, how many tracks a stream has, whether the worklet
    module loads, the websocket's ready state) is an argument of the
    computation.  An [async] method is one step, taken from the state in
    which the promise it awaits settles. *)

From Stdlib Require Import ZArith Strings.Byte Floats.SpecFloat.
From stdpp Require Import base gmap strings list pretty.

Open Scope Z_scope.

(** ** JavaScript numbers: IEEE-754 binary64 *)

Module Js.
Definition prec : Z := 53.
Definition emax : Z := 1024.

Definition number : Type := spec_float.

(** An integer literal, rounded to the nearest double. *)
Definition lit (z : Z) : number := binary_normalize prec emax z 0 false.

Definition mul (x y : number) : number := SFmul prec emax x y.
Definition div (x y : number) : number := SFdiv prec emax x y.
End Js.

(** ** Module constants (lines 5-27 of the source) *)

(** Sample rate of the audio context *)
Definition SAMPLE_RATE : Js.number := Js.lit 48000.
(** Number of channels for the audio context *)
Definition NUM_CHANNELS : Js.number := Js.lit 2.
(** 16 bit audio data *)
Definition BIT_DEPTH : Js.number := Js.lit 16.
(** Number of bytes per audio sample *)
Definition BYTES_PER_SAMPLE : Js.number := Js.div BIT_DEPTH (Js.lit 8).
(** 20ms Opus frame duration *)
Definition FRAME_DURATION : Js.number := Js.lit 20.
(** Duration of each audio frame in seconds *)
Definition FRAME_DURATION_SECONDS : Js.number :=
  Js.div FRAME_DURATION (Js.lit 1000).
(** [(SAMPLE_RATE * FRAME_DURATION_SECONDS * NUM_CHANNELS) / BYTES_PER_SAMPLE] *)
Definition FRAME_SIZE : Js.number :=
  Js.div (Js.mul (Js.mul SAMPLE_RATE FRAME_DURATION_SECONDS) NUM_CHANNELS)
         BYTES_PER_SAMPLE.

(** ** Browser objects *)

Definition NodeRef : Type := nat.
Definition TrackRef : Type := nat.

(** The nodes of the [AudioContext] that the manager creates.  A gain node
    carries the value of its [gain] parameter. *)
Inductive AudioNode : Type :=
  | GainNode (gain_value : Z)
  | MediaStreamAudioSourceNode (stream_id : nat)
  | MediaStreamAudioDestinationNode (stream_id : nat)
  | AudioWorkletNode (name : string) (bufferSize : Z).

(** A [MediaStream] is never modified after [getUserMedia] hands it out; only
    its tracks change state, and those are shared through [TrackRef]s. *)
Record MediaStream : Type := mkMediaStream {
  stream_id : nat;
  getTracks : list TrackRef;
}.

Inductive TrackState : Type := live | ended.

Record HTMLAudioElement : Type := mkAudio {
  srcObject : MediaStream;
  muted : bool;
  paused : bool;
}.

Inductive ReadyState : Type := CONNECTING | OPEN | CLOSING | CLOSED.

Definition Frame : Type := list byte.

Record WebSocket : Type := mkWebSocket {
  ws_port : Z;
  readyState : ReadyState;
  sent : list Frame;
}.

Inductive JsError : Type :=
  | DOMException (name : string)
  | TypeError (message : string).

Inductive ConsoleEntry : Type :=
  | ErrorText (text : string)
  | ErrorObject (error : JsError).

Inductive IpcMessage : Type :=
  | IpcSend (channel : string) (args : list Js.number)
  | IpcEmit (channel : string) (text : string).

(** ** The manager and the browser state it acts on *)

Record State : Type := mkState {
  (* fields of [AudioCaptureManagerPreload] *)
  _audioOutputNode : NodeRef;
  _audioOutputElement : option HTMLAudioElement;
  _mediaStreams : gmap Z MediaStream;
  _mediaStreamOutputs : gmap Z NodeRef;
  _externalAudioStreams : gmap string MediaStream;
  _externalAudioStreamOutputs : gmap string NodeRef;
  _ws : option WebSocket;
  (* the audio graph of [_audioContext] *)
  nodes : gmap NodeRef AudioNode;
  next_node : NodeRef;
  connections : gset (NodeRef * NodeRef);
  (* media streams and tracks handed out so far *)
  next_stream : nat;
  next_track : TrackRef;
  ended_tracks : gset TrackRef;
  (* console and IPC output *)
  console : list ConsoleEntry;
  ipc_log : list IpcMessage;
}.

Definition set_audioOutputElement (v : option HTMLAudioElement) (s : State) : State :=
  mkState (_audioOutputNode s) v (_mediaStreams s) (_mediaStreamOutputs s)
    (_externalAudioStreams s) (_externalAudioStreamOutputs s) (_ws s)
    (nodes s) (next_node s) (connections s) (next_stream s) (next_track s)
    (ended_tracks s) (console s) (ipc_log s).

Definition set_mediaStreams (v : gmap Z MediaStream) (s : State) : State :=
  mkState (_audioOutputNode s) (_audioOutputElement s) v (_mediaStreamOutputs s)
    (_externalAudioStreams s) (_externalAudioStreamOutputs s) (_ws s)
    (nodes s) (next_node s) (connections s) (next_stream s) (next_track s)
    (ended_tracks s) (console s) (ipc_log s).

Definition set_mediaStreamOutputs (v : gmap Z NodeRef) (s : State) : State :=
  mkState (_audioOutputNode s) (_audioOutputElement s) (_mediaStreams s) v
    (_externalAudioStreams s) (_externalAudioStreamOutputs s) (_ws s)
    (nodes s) (next_node s) (connections s) (next_stream s) (next_track s)
    (ended_tracks s) (console s) (ipc_log s).

Definition set_externalAudioStreams (v : gmap string MediaStream) (s : State) : State :=
  mkState (_audioOutputNode s) (_audioOutputElement s) (_mediaStreams s)
    (_mediaStreamOutputs s) v (_externalAudioStreamOutputs s) (_ws s)
    (nodes s) (next_node s) (connections s) (next_stream s) (next_track s)
    (ended_tracks s) (console s) (ipc_log s).

Definition set_externalAudioStreamOutputs (v : gmap string NodeRef) (s : State) : State :=
  mkState (_audioOutputNode s) (_audioOutputElement s) (_mediaStreams s)
    (_mediaStreamOutputs s) (_externalAudioStreams s) v (_ws s)
    (nodes s) (next_node s) (connections s) (next_stream s) (next_track s)
    (ended_tracks s) (console s) (ipc_log s).

Definition set_ws (v : option WebSocket) (s : State) : State :=
  mkState (_audioOutputNode s) (_audioOutputElement s) (_mediaStreams s)
    (_mediaStreamOutputs s) (_externalAudioStreams s)
    (_externalAudioStreamOutputs s) v
    (nodes s) (next_node s) (connections s) (next_stream s) (next_track s)
    (ended_tracks s) (console s) (ipc_log s).

Definition set_nodes (v : gmap NodeRef AudioNode) (s : State) : State :=
  mkState (_audioOutputNode s) (_audioOutputElement s) (_mediaStreams s)
    (_mediaStreamOutputs s) (_externalAudioStreams s)
    (_externalAudioStreamOutputs s) (_ws s)
    v (next_node s) (connections s) (next_stream s) (next_track s)
    (ended_tracks s) (console s) (ipc_log s).

Definition set_next_node (v : NodeRef) (s : State) : State :=
  mkState (_audioOutputNode s) (_audioOutputElement s) (_mediaStreams s)
    (_mediaStreamOutputs s) (_externalAudioStreams s)
    (_externalAudioStreamOutputs s) (_ws s)
    (nodes s) v (connections s) (next_stream s) (next_track s)
    (ended_tracks s) (console s) (ipc_log s).

Definition set_connections (v : gset (NodeRef * NodeRef)) (s : State) : State :=
  mkState (_audioOutputNode s) (_audioOutputElement s) (_mediaStreams s)
    (_mediaStreamOutputs s) (_externalAudioStreams s)
    (_externalAudioStreamOutputs s) (_ws s)
    (nodes s) (next_node s) v (next_stream s) (next_track s)
    (ended_tracks s) (console s) (ipc_log s).

Definition set_next_stream (v : nat) (s : State) : State :=
  mkState (_audioOutputNode s) (_audioOutputElement s) (_mediaStreams s)
    (_mediaStreamOutputs s) (_externalAudioStreams s)
    (_externalAudioStreamOutputs s) (_ws s)
    (nodes s) (next_node s) (connections s) v (next_track s)
    (ended_tracks s) (console s) (ipc_log s).

Definition set_next_track (v : TrackRef) (s : State) : State :=
  mkState (_audioOutputNode s) (_audioOutputElement s) (_mediaStreams s)
    (_mediaStreamOutputs s) (_externalAudioStreams s)
    (_externalAudioStreamOutputs s) (_ws s)
    (nodes s) (next_node s) (connections s) (next_stream s) v
    (ended_tracks s) (console s) (ipc_log s).

Definition set_ended_tracks (v : gset TrackRef) (s : State) : State :=
  mkState (_audioOutputNode s) (_audioOutputElement s) (_mediaStreams s)
    (_mediaStreamOutputs s) (_externalAudioStreams s)
    (_externalAudioStreamOutputs s) (_ws s)
    (nodes s) (next_node s) (connections s) (next_stream s) (next_track s)
    v (console s) (ipc_log s).

Definition set_console (v : list ConsoleEntry) (s : State) : State :=
  mkState (_audioOutputNode s) (_audioOutputElement s) (_mediaStreams s)
    (_mediaStreamOutputs s) (_externalAudioStreams s)
    (_externalAudioStreamOutputs s) (_ws s)
    (nodes s) (next_node s) (connections s) (next_stream s) (next_track s)
    (ended_tracks s) v (ipc_log s).

Definition set_ipc_log (v : list IpcMessage) (s : State) : State :=
  mkState (_audioOutputNode s) (_audioOutputElement s) (_mediaStreams s)
    (_mediaStreamOutputs s) (_externalAudioStreams s)
    (_externalAudioStreamOutputs s) (_ws s)
    (nodes s) (next_node s) (connections s) (next_stream s) (next_track s)
    (ended_tracks s) (console s) v.

(** ** The monad of method bodies: state plus thrown exceptions *)

Inductive Completion (A : Type) : Type :=
  | Normal (a : A) (s : State)
  | Throw (e : JsError) (s : State).
Arguments Normal {A} a s.
Arguments Throw {A} e s.

Definition JS (A : Type) : Type := State → Completion A.

#[global] Instance JS_ret : MRet JS := λ A a s, Normal a s.
#[global] Instance JS_bind : MBind JS := λ A B f m s,
  match m s with
  | Normal a s' => f a s'
  | Throw e s' => Throw e s'
  end.

Definition throw {A : Type} (e : JsError) : JS A := λ s, Throw e s.
Definition gets {A : Type} (f : State → A) : JS A := λ s, Normal (f s) s.
Definition modify (f : State → State) : JS unit := λ s, Normal tt (f s).

(** [try { body } catch (error) { handler error }] *)
Definition try_catch {A : Type} (body : JS A) (handler : JsError → JS A) : JS A :=
  λ s, match body s with
       | Normal a s' => Normal a s'
       | Throw e s' => handler e s'
       end.

(** The state a computation leaves behind, however it completes. *)
Definition exec {A : Type} (m : JS A) (s : State) : State :=
  match m s with
  | Normal _ s' => s'
  | Throw _ s' => s'
  end.

(** ** Browser primitives used by the manager *)

(** How a [navigator.mediaDevices.getUserMedia] request settles: with a stream
    of so many audio tracks, or with a rejection. *)
Inductive GumOutcome : Type :=
  | GumResolved (audio_tracks : nat)
  | GumRejected (error : JsError).

(** How [audioWorklet.addModule] settles. *)
Inductive ModuleOutcome : Type :=
  | ModuleLoaded
  | ModuleRejected (error : JsError).

(** A new stream with [n] new live tracks. *)
Definition new_MediaStream (n : nat) : JS MediaStream :=
  sid ← gets next_stream;
  t ← gets next_track;
  modify (λ s, set_next_stream (S sid) (set_next_track (t + n)%nat s));;
  mret (mkMediaStream sid (seq t n)).

Definition getUserMedia (gum : GumOutcome) : JS MediaStream :=
  match gum with
  | GumResolved n => new_MediaStream n
  | GumRejected e => throw e
  end.

Definition new_node (n : AudioNode) : JS NodeRef :=
  r ← gets next_node;
  modify (λ s, set_next_node (S r) (set_nodes (<[r := n]> (nodes s)) s));;
  mret r.

(** A fresh gain node has gain 1. *)
Definition createGain : JS NodeRef := new_node (GainNode 1).

(** [createMediaStreamSource] raises [InvalidStateError] on a stream without
    an audio track. *)
Definition createMediaStreamSource (stream : MediaStream) : JS NodeRef :=
  match getTracks stream with
  | [] => throw (DOMException "InvalidStateError")
  | _ :: _ => new_node (MediaStreamAudioSourceNode (stream_id stream))
  end.

(** The destination node comes with a stream of one audio track. *)
Definition createMediaStreamDestination : JS (NodeRef * MediaStream) :=
  stream ← new_MediaStream 1;
  r ← new_node (MediaStreamAudioDestinationNode (stream_id stream));
  mret (r, stream).

(** [a.connect(b)]; connecting the same pair again changes nothing. *)
Definition connect (a b : NodeRef) : JS unit :=
  modify (λ s, set_connections ({[ (a, b) ]} ∪ connections s) s).

Definition set_gain (v : Z) (n : AudioNode) : AudioNode :=
  match n with
  | GainNode _ => GainNode v
  | _ => n
  end.

(** [track.stop()] *)
Definition track_stop (t : TrackRef) : JS unit :=
  modify (λ s, set_ended_tracks ({[ t ]} ∪ ended_tracks s) s).

Definition track_readyState (s : State) (t : TrackRef) : TrackState :=
  if decide (t ∈ ended_tracks s) then ended else live.

Definition console_error (entry : ConsoleEntry) : JS unit :=
  modify (λ s, set_console (console s ++ [entry]) s).

Definition ipc (m : IpcMessage) : JS unit :=
  modify (λ s, set_ipc_log (ipc_log s ++ [m]) s).

(** [for (let x of l) { body x }] *)
Fixpoint for_of {A : Type} (l : list A) (body : A → JS unit) : JS unit :=
  match l with
  | [] => mret tt
  | x :: l' => body x;; for_of l' body
  end.

(** ** AudioCaptureManagerPreload *)

(** The state right after [new AudioCaptureManagerPreload()]: empty
    registries and an audio context holding the output gain node. *)
Definition constructor : State :=
  {| _audioOutputNode := 0%nat;
     _audioOutputElement := None;
     _mediaStreams := ∅;
     _mediaStreamOutputs := ∅;
     _externalAudioStreams := ∅;
     _externalAudioStreamOutputs := ∅;
     _ws := None;
     nodes := {[ 0%nat := GainNode 1 ]};
     next_node := 1%nat;
     connections := ∅;
     next_stream := 0%nat;
     next_track := 0%nat;
     ended_tracks := ∅;
     console := [];
     ipc_log := [] |}.

Definition setMuted (id : Z) (muted : bool) : JS unit :=
  outputs ← gets _mediaStreamOutputs;
  match outputs !! id with
  | Some output =>
      modify (λ s, set_nodes
                     (alter (set_gain (if muted then 0 else 1)) output (nodes s)) s)
  | None => mret tt
  end.

Definition set_muted (v : bool) (el : HTMLAudioElement) : HTMLAudioElement :=
  mkAudio (srcObject el) v (paused el).

(** Assigning to a property of [undefined] raises a [TypeError]. *)
Definition setLoopback (loopback : bool) : JS unit :=
  element ← gets _audioOutputElement;
  match element with
  | Some el => modify (set_audioOutputElement (Some (set_muted (negb loopback) el)))
  | None => throw (TypeError "Cannot set properties of undefined (setting 'muted')")
  end.

(** The body runs once the [getUserMedia] promise has settled with [gum]. *)
Definition startExternalAudioCapture (deviceId : string) (gum : GumOutcome) : JS unit :=
  try_catch
    (stream ← getUserMedia gum;
     modify (λ s, set_externalAudioStreams
                    (<[deviceId := stream]> (_externalAudioStreams s)) s);;
     output ← createGain;
     modify (λ s, set_externalAudioStreamOutputs
                    (<[deviceId := output]> (_externalAudioStreamOutputs s)) s);;
     audioSource ← createMediaStreamSource stream;
     connect audioSource output;;
     out ← gets _audioOutputNode;
     connect output out)
    (λ error,
     console_error
       (ErrorText ("Unable to start stream for external audio device " +:+ deviceId));;
     console_error (ErrorObject error)).

Definition stopExternalAudioCapture (deviceId : string) : JS unit :=
  streams ← gets _externalAudioStreams;
  match streams !! deviceId with
  | Some stream =>
      for_of (getTracks stream) track_stop;;
      modify (λ s, set_externalAudioStreams
                     (delete deviceId (_externalAudioStreams s)) s);;
      modify (λ s, set_externalAudioStreamOutputs
                     (delete deviceId (_externalAudioStreamOutputs s)) s)
  | None => mret tt
  end.

(** [port] is the port of the address that the main process answers with. *)
Definition _setupWebsocket (port : Z) : JS unit :=
  modify (set_ws (Some (mkWebSocket port CONNECTING []))).

(** The websocket's ["close"] listener. *)
Definition ws_onclose (code : Z) : JS unit :=
  ipc (IpcEmit "ERROR" ("WebSocket closed with code " +:+ pretty code)).

Definition _setupLoopback : JS unit :=
  '(mediaDestination, stream) ← createMediaStreamDestination;
  out ← gets _audioOutputNode;
  connect out mediaDestination;;
  modify (set_audioOutputElement (Some (mkAudio stream false true))).

(** [_audioOutputElement.onloadedmetadata]: start playing. *)
Definition onloadedmetadata : JS unit :=
  element ← gets _audioOutputElement;
  match element with
  | Some el => modify (set_audioOutputElement
                         (Some (mkAudio (srcObject el) (muted el) false)))
  | None => throw (TypeError "Cannot read properties of undefined (reading 'play')")
  end.

Definition setup (port : Z) : JS unit :=
  _setupWebsocket port;;
  _setupLoopback.

(** The two values of the TypeScript type ["lowLatency" | "performance"]. *)
Inductive StreamingMode : Type := lowLatency | performance.

Definition mode_string (m : StreamingMode) : string :=
  match m with
  | lowLatency => "lowLatency"
  | performance => "performance"
  end.

(** [streamingMode === "lowLatency" ? 256 : 64000], on the string the
    comparison sees at run time. *)
Definition pcm_bufferSize (streamingMode : string) : Z :=
  if String.eqb streamingMode "lowLatency" then 256 else 64000.

Definition addModule (loaded : ModuleOutcome) : JS unit :=
  match loaded with
  | ModuleLoaded => mret tt
  | ModuleRejected e => throw e
  end.

(** [pcmStreamNode.port.onmessage], with [data] the event's [data]. *)
Definition pcm_onmessage (data : Frame) : JS unit :=
  ws ← gets _ws;
  match ws with
  | Some w =>
      match readyState w with
      | OPEN => modify (set_ws (Some (mkWebSocket (ws_port w) OPEN (sent w ++ [data]))))
      | _ => mret tt
      end
  | None => mret tt
  end.

Definition _startBrowserStream (streamingMode : StreamingMode)
    (loaded : ModuleOutcome) : JS unit :=
  ipc (IpcSend "AUDIO_CAPTURE_STREAM_START" [NUM_CHANNELS; FRAME_SIZE; SAMPLE_RATE]);;
  addModule loaded;;
  pcmStreamNode ← new_node (AudioWorkletNode "pcm-stream"
                              (pcm_bufferSize (mode_string streamingMode)));
  out ← gets _audioOutputNode;
  connect out pcmStreamNode.

Definition start (streamingMode : StreamingMode) (loaded : ModuleOutcome) : JS unit :=
  _startBrowserStream streamingMode loaded.

Definition startBrowserViewStream (viewId : Z) (mediaSourceId : string)
    (gum : GumOutcome) : JS unit :=
  try_catch
    (stream ← getUserMedia gum;
     modify (λ s, set_mediaStreams (<[viewId := stream]> (_mediaStreams s)) s);;
     output ← createGain;
     modify (λ s, set_mediaStreamOutputs
                    (<[viewId := output]> (_mediaStreamOutputs s)) s);;
     audioSource ← createMediaStreamSource stream;
     connect audioSource output;;
     out ← gets _audioOutputNode;
     connect output out)
    (λ error,
     console_error
       (ErrorText ("Unable to start stream for web view " +:+ pretty viewId));;
     console_error (ErrorObject error)).

Definition stopBrowserViewStream (viewId : Z) : JS unit :=
  streams ← gets _mediaStreams;
  match streams !! viewId with
  | Some stream =>
      for_of (getTracks stream) track_stop;;
      modify (λ s, set_mediaStreams (delete viewId (_mediaStreams s)) s)
  | None => mret tt
  end.

(** ** What the browser does to the manager between method calls *)

Inductive Event : Type :=
  | PortMessage (data : Frame)        (* the worklet posts a frame *)
  | WsReadyState (rs : ReadyState).   (* the websocket changes state *)

Definition ws_transition (rs : ReadyState) : JS unit :=
  ws ← gets _ws;
  match ws with
  | Some w => modify (set_ws (Some (mkWebSocket (ws_port w) rs (sent w))))
  | None => mret tt
  end.

Definition handle (e : Event) : JS unit :=
  match e with
  | PortMessage data => pcm_onmessage data
  | WsReadyState rs => ws_transition rs
  end.

Definition run (evs : list Event) (s : State) : State :=
  foldl (λ s e, exec (handle e) s) s evs.

(** ** Observations *)

Definition ws_open (s : State) : bool :=
  match _ws s with
  | Some w => match readyState w with OPEN => true | _ => false end
  | None => false
  end.

Definition ws_sent (s : State) : list Frame :=
  match _ws s with
  | Some w => sent w
  | None => []
  end.

(** The frames among a run of events, in the order the worklet emits them. *)
Definition frames_of (evs : list Event) : list Frame :=
  omap (λ e, match e with PortMessage d => Some d | WsReadyState _ => None end) evs.

Definition gain_of (s : State) (g : NodeRef) : option Z :=
  match nodes s !! g with
  | Some (GainNode v) => Some v
  | _ => None
  end.


(** The integer a double stands for, when it stands for one. *)
Definition exact_Z (x : Js.number) : option Z :=
  match x with
  | S754_zero _ => Some 0
  | S754_finite sg m e =>
      let z := if sg then Z.neg m else Z.pos m in
      if 0 <=? e then Some (z * 2 ^ e)
      else if Z.pos m mod 2 ^ (- e) =? 0 then Some (z / 2 ^ (- e))
      else None
  | _ => None
  end.

(** Orders of magnitude, as the specification words them. *)
Definition tens (n : Z) : Prop := 10 ≤ n < 100.
Definition hundreds (n : Z) : Prop := 100 ≤ n < 1000.
Definition tens_of_thousands (n : Z) : Prop := 10000 ≤ n < 100000.

(** The message [_startBrowserStream] sends to the main process, with its
    three numbers written out. *)
Definition stream_start_message : IpcMessage :=
  IpcSend "AUDIO_CAPTURE_STREAM_START" [Js.lit 2; Js.lit 960; Js.lit 48000].

(** The frames that arrive while the connection is open, read off the event
    sequence alone: what the transport is specified to carry. *)
Fixpoint frames_while_open (conn : option ReadyState) (evs : list Event) : list Frame :=
  match evs with
  | [] => []
  | PortMessage d :: evs' =>
      match conn with
      | Some OPEN => d :: frames_while_open conn evs'
      | _ => frames_while_open conn evs'
      end
  | WsReadyState rs :: evs' => frames_while_open ((λ _, rs) <$> conn) evs'
  end.

(** ** Reachable states *)

(** A call of a public method with what the browser answers, or a browser
    event delivered to one of the manager's handlers. *)
Inductive Call : Type :=
  | Setup (port : Z)
  | Start (streamingMode : StreamingMode) (loaded : ModuleOutcome)
  | SetMuted (id : Z) (muted : bool)
  | SetLoopback (loopback : bool)
  | StartExternalAudioCapture (deviceId : string) (gum : GumOutcome)
  | StopExternalAudioCapture (deviceId : string)
  | StartBrowserViewStream (viewId : Z) (mediaSourceId : string) (gum : GumOutcome)
  | StopBrowserViewStream (viewId : Z)
  | Deliver (e : Event)
  | LoadedMetadata
  | WsClose (code : Z).

Definition call (c : Call) : JS unit :=
  match c with
  | Setup port => setup port
  | Start streamingMode loaded => start streamingMode loaded
  | SetMuted id muted => setMuted id muted
  | SetLoopback loopback => setLoopback loopback
  | StartExternalAudioCapture deviceId gum => startExternalAudioCapture deviceId gum
  | StopExternalAudioCapture deviceId => stopExternalAudioCapture deviceId
  | StartBrowserViewStream viewId mediaSourceId gum =>
      startBrowserViewStream viewId mediaSourceId gum
  | StopBrowserViewStream viewId => stopBrowserViewStream viewId
  | Deliver e => handle e
  | LoadedMetadata => onloadedmetadata
  | WsClose code => ws_onclose code
  end.

Inductive reachable : State → Prop :=
  | reachable_constructor : reachable constructor
  | reachable_call (c : Call) (s : State) :
      reachable s → reachable (exec (call c) s).

(** The gain registries point into the node heap: every registered reference
    is an allocated gain node, and no node is registered both for a browser
    view and for an external device. *)
Definition registries_ok (views : gmap Z NodeRef) (devices : gmap string NodeRef)
    (heap : gmap NodeRef AudioNode) (next : NodeRef) : Prop :=
  (∀ (id : Z) (g : NodeRef), views !! id = Some g →
     (g < next)%nat ∧ ∃ v : Z, heap !! g = Some (GainNode v)) ∧
  (∀ (d : string) (g : NodeRef), devices !! d = Some g →
     (g < next)%nat ∧ ∃ v : Z, heap !! g = Some (GainNode v)) ∧
  (∀ (id : Z) (d : string) (g : NodeRef),
     views !! id = Some g → devices !! d = Some g → False).

Definition wf (s : State) : Prop :=
  registries_ok (_mediaStreamOutputs s) (_externalAudioStreamOutputs s)
    (nodes s) (next_node s).

(** ** Some states of the manager *)

Definition frame0 : Frame := [x01; x02; x03; x04].

(** Set up, the websocket still connecting. *)
Definition connecting_state : State := exec (setup 8080) constructor.

(** Set up and streaming in low-latency mode. *)
Definition streaming_state : State :=
  exec (start lowLatency ModuleLoaded) connecting_state.

(** View 5 captured once, and captured again without a stop in between. *)
Definition view5_started : State :=
  exec (startBrowserViewStream 5 "h1" (GumResolved 1)) constructor.
Definition view5_started_twice : State :=
  exec (startBrowserViewStream 5 "h2" (GumResolved 1)) view5_started.

(** The device "mic-1" captured once, and twice. *)
Definition mic1_started : State :=
  exec (startExternalAudioCapture "mic-1" (GumResolved 1)) constructor.

(** View 5 and "mic-1" captured and then stopped. *)
Definition view5_stopped : State := exec (stopBrowserViewStream 5) view5_started.

(** View 5 and "mic-1" captured side by side. *)
Definition view5_and_mic1 : State :=
  exec (startExternalAudioCapture "mic-1" (GumResolved 1)) view5_started.

(** ** Sources under either registry *)

(** A browser-view id or an external device id. *)
Definition SourceKey : Type := (Z + string)%type.

Definition stream_at (s : State) (k : SourceKey) : option MediaStream :=
  match k with
  | inl viewId => _mediaStreams s !! viewId
  | inr deviceId => _externalAudioStreams s !! deviceId
  end.

Definition output_at (s : State) (k : SourceKey) : option NodeRef :=
  match k with
  | inl viewId => _mediaStreamOutputs s !! viewId
  | inr deviceId => _externalAudioStreamOutputs s !! deviceId
  end.

Definition stop_source (k : SourceKey) : JS unit :=
  match k with
  | inl viewId => stopBrowserViewStream viewId
  | inr deviceId => stopExternalAudioCapture deviceId
  end.

Definition start_source (k : SourceKey) (mediaSourceId : string)
    (gum : GumOutcome) : JS unit :=
  match k with
  | inl viewId => startBrowserViewStream viewId mediaSourceId gum
  | inr deviceId => startExternalAudioCapture deviceId gum
  end.

Definition run_calls (cs : list Call) (s : State) : State :=
  foldl (λ s c, exec (call c) s) s cs.

(** Gain records hold allocated nodes other than the mix bus, and no node is
    recorded twice. *)
Definition outputs_fresh_injective (s : State) : Prop :=
  (0 < next_node s)%nat ∧
  (∀ (k : SourceKey) (g : NodeRef),
     output_at s k = Some g → (0 < g < next_node s)%nat) ∧
  (∀ (k k' : SourceKey) (g : NodeRef),
     output_at s k = Some g → output_at s k' = Some g → k = k').

(** Recorded streams hold tracks handed out before, and no track belongs to
    two recorded streams. *)
Definition streams_fresh_disjoint (s : State) : Prop :=
  (∀ (k : SourceKey) (st : MediaStream) (t : TrackRef),
     stream_at s k = Some st → t ∈ getTracks st → (t < next_track s)%nat) ∧
  (∀ (k k' : SourceKey) (st st' : MediaStream) (t : TrackRef),
     stream_at s k = Some st → stream_at s k' = Some st' →
     t ∈ getTracks st → t ∈ getTracks st' → k = k').

(** The mix bus is node 0 with gain 1, and every gain in the heap is 0 or 1. *)
Definition heap_ok (s : State) : Prop :=
  _audioOutputNode s = 0%nat ∧
  nodes s !! (0%nat : NodeRef) = Some (GainNode 1) ∧
  (0 < next_node s)%nat ∧
  (∀ (r : NodeRef) (v : Z), nodes s !! r = Some (GainNode v) → v = 0 ∨ v = 1).

(** A live track that no recorded stream holds: no stop can reach it. *)
Definition orphaned (s : State) (t : TrackRef) : Prop :=
  (t < next_track s)%nat ∧
  (t ∉ ended_tracks s) ∧
  (∀ (k : SourceKey) (st : MediaStream), stream_at s k = Some st → t ∉ getTracks st).

(** What holds of every reachable state. *)
Definition inv (s : State) : Prop :=
  outputs_fresh_injective s ∧ streams_fresh_disjoint s ∧ heap_ok s.

(** Whether a call is [setup]. *)
Definition is_setup (c : Call) : bool :=
  match c with
  | Setup _ => true
  | _ => false
  end.

(** More states of the manager. *)
Definition view5_muted_and_mic1 : State := exec (setMuted 5 true) view5_and_mic1.
Definition view5_and_view7 : State :=
  exec (startBrowserViewStream 7 "h7" (GumResolved 2)) view5_started.

(** * The main-process browser view manager

    [src/main/managers/BrowserViewManagerMain.ts].  The manager keeps a
    registry of views and otherwise only calls into Electron; those calls are
    recorded in the order they are made. *)

Module Main.

Record Rectangle : Type := mkRectangle {
  x : Z;
  y : Z;
  width : Z;
  height : Z;
}.

Record AutoResizeOptions : Type := mkAutoResize {
  resize_width : bool;
  resize_height : bool;
  resize_vertical : bool;
}.

(** A [BrowserView] object, known by the id of its [webContents]. *)
Record BrowserView : Type := mkBrowserView {
  webContents_id : Z;
}.

Inductive WebContentsCall : Type :=
  | LoadURL (url : string)
  | GoForward
  | GoBack
  | Reload.

(** Calls on Electron objects.  [window.getBounds()], whose result the
    manager never uses, is left out. *)
Inductive ElectronCall : Type :=
  | NewBrowserView (view : BrowserView)
      (contextIsolation worldSafeExecuteJavaScript : bool)
  | WindowSetBrowserView (view : BrowserView)
  | ViewSetBounds (view : BrowserView) (bounds : Rectangle)
  | ViewSetAutoResize (view : BrowserView) (options : AutoResizeOptions)
  | WebContents (view : BrowserView) (c : WebContentsCall)
  | WindowRemoveBrowserView (view : BrowserView).

Record State : Type := mkState {
  views : gmap Z BrowserView;
  outputStream : list (list byte);
  electron : list ElectronCall;
}.

(** [new BrowserViewManagerMain(window)] *)
Definition constructor : State :=
  {| views := ∅; outputStream := []; electron := [] |}.

Definition do_call (c : ElectronCall) (s : State) : State :=
  mkState (views s) (outputStream s) (electron s ++ [c]).

(** [id] is the id Electron gives the new view's [webContents]. *)
Definition createBrowserView (url : string) (xOffset : Z) (id : Z)
    (s : State) : Z * State :=
  let view := mkBrowserView id in
  let s := do_call (NewBrowserView view true true) s in
  let s := do_call (WindowSetBrowserView view) s in
  let s := do_call (ViewSetBounds view (mkRectangle 30 0 400 500)) s in
  let s := do_call (ViewSetAutoResize view (mkAutoResize true true true)) s in
  let s := do_call (WebContents view (LoadURL url)) s in
  let s := mkState (<[webContents_id view := view]> (views s))
             (outputStream s) (electron s) in
  (webContents_id view, s).

Definition removeBrowserView (id : Z) (s : State) : State :=
  match views s !! id with
  | Some view =>
      let s := do_call (WindowRemoveBrowserView view) s in
      mkState (delete id (views s)) (outputStream s) (electron s)
  | None => s
  end.

(** [this.views[id]?.webContents.f()] *)
Definition on_view (id : Z) (c : WebContentsCall) (s : State) : State :=
  match views s !! id with
  | Some view => do_call (WebContents view c) s
  | None => s
  end.

Definition loadURL (id : Z) (url : string) (s : State) : State :=
  on_view id (LoadURL url) s.
Definition goForward (id : Z) (s : State) : State := on_view id GoForward s.
Definition goBack (id : Z) (s : State) : State := on_view id GoBack s.
Definition reload (id : Z) (s : State) : State := on_view id Reload s.

(** The messages [ipcMain] listens to; a ["createBrowserView"] message comes
    with the id Electron will give the view. *)
Inductive IpcMain : Type :=
  | On_browserViewStream (data : list byte)
  | On_createBrowserView (url : string) (xOffset : Z) (id : Z)
  | On_removeBrowserView (id : Z)
  | On_loadURL (id : Z) (url : string)
  | On_goForward (id : Z)
  | On_goBack (id : Z)
  | On_reload (id : Z).

(** The listener for a message: the new state and, for
    ["createBrowserView"], the [event.returnValue]. *)
Definition on (m : IpcMain) (s : State) : option Z * State :=
  match m with
  | On_browserViewStream data =>
      (None, mkState (views s) (outputStream s ++ [data]) (electron s))
  | On_createBrowserView url xOffset id =>
      let '(r, s') := createBrowserView url xOffset id s in (Some r, s')
  | On_removeBrowserView id => (None, removeBrowserView id s)
  | On_loadURL id url => (None, loadURL id url s)
  | On_goForward id => (None, goForward id s)
  | On_goBack id => (None, goBack id s)
  | On_reload id => (None, reload id s)
  end.

Definition run (ms : list IpcMain) (s : State) : State :=
  foldl (λ s m, snd (on m s)) s ms.

(** The chunks among a run of messages, in order. *)
Definition chunks_of (ms : list IpcMain) : list (list byte) :=
  omap (λ m, match m with On_browserViewStream d => Some d | _ => None end) ms.

(** The Electron calls that reach a given view's [webContents]. *)
Definition calls_on (id : Z) (cs : list ElectronCall) : list WebContentsCall :=
  omap (λ c, match c with
             | WebContents v wc => if decide (webContents_id v = id) then Some wc else None
             | _ => None
             end) cs.

(** The bounds every new view is given. *)
Definition view_bounds : Rectangle := mkRectangle 30 0 400 500.

(** A manager holding one view, with [webContents] id 1. *)
Definition one_view : State :=
  snd (createBrowserView "https://example.org" 120 1 constructor).

End Main.

(** * Properties *)

Ltac js_unfold :=
  unfold exec, try_catch, mbind, mret, JS_bind, JS_ret, gets, modify, throw.

(** ** Framing constant and buffer sizes *)

Lemma FRAME_DURATION_SECONDS_inexact : exact_Z FRAME_DURATION_SECONDS = None.
Proof. vm_compute. reflexivity. Qed.

Lemma FRAME_SIZE_value : FRAME_SIZE = Js.lit 960.
Proof. vm_compute. reflexivity. Qed.

Lemma pcm_bufferSize_cases (streamingMode : string) :
  pcm_bufferSize streamingMode = 256 ∨ pcm_bufferSize streamingMode = 64000.
Proof. unfold pcm_bufferSize. destruct (String.eqb _ _); auto. Qed.

Lemma _startBrowserStream_loaded (mode : StreamingMode) (s : State) :
  _startBrowserStream mode ModuleLoaded s =
  Normal tt
    (set_connections ({[ (_audioOutputNode s, next_node s) ]} ∪ connections s)
       (set_next_node (S (next_node s))
          (set_nodes (<[next_node s :=
                          AudioWorkletNode "pcm-stream"
                            (pcm_bufferSize (mode_string mode))]> (nodes s))
             (set_ipc_log (ipc_log s ++
                             [IpcSend "AUDIO_CAPTURE_STREAM_START"
                                [NUM_CHANNELS; FRAME_SIZE; SAMPLE_RATE]]) s)))).
Proof. reflexivity. Qed.

Lemma _startBrowserStream_rejected (mode : StreamingMode) (e : JsError) (s : State) :
  _startBrowserStream mode (ModuleRejected e) s =
  Throw e (set_ipc_log (ipc_log s ++
                          [IpcSend "AUDIO_CAPTURE_STREAM_START"
                             [NUM_CHANNELS; FRAME_SIZE; SAMPLE_RATE]]) s).
Proof. reflexivity. Qed.

(** C7: [FRAME_SIZE], computed in double arithmetic as
    [(SAMPLE_RATE * FRAME_DURATION_SECONDS * NUM_CHANNELS) / BYTES_PER_SAMPLE],
    is exactly the number 960.  [_startBrowserStream] puts it in the
    stream-start message, which is the same in both modes and whether or not
    the worklet module loads, while the worklet's [bufferSize] depends on the
    mode alone and is never 960. *)
Theorem FRAME_SIZE_is_960_and_metadata_only :
  FRAME_SIZE = Js.lit 960 ∧
  exact_Z FRAME_SIZE = Some 960 ∧
  (∀ (mode : StreamingMode) (loaded : ModuleOutcome) (s : State),
     ipc_log (exec (_startBrowserStream mode loaded) s)
     = ipc_log s ++ [stream_start_message]) ∧
  (∀ (mode : StreamingMode) (s : State),
     nodes (exec (_startBrowserStream mode ModuleLoaded) s) !! next_node s
     = Some (AudioWorkletNode "pcm-stream" (pcm_bufferSize (mode_string mode)))) ∧
  (∀ mode : StreamingMode,
     Js.lit (pcm_bufferSize (mode_string mode)) ≠ FRAME_SIZE) ∧
  pcm_bufferSize (mode_string lowLatency) ≠ pcm_bufferSize (mode_string performance).
Proof.
  split; [apply FRAME_SIZE_value|].
  split; [vm_compute; reflexivity|].
  split.
  { intros mode [|e] s.
    - unfold exec. rewrite _startBrowserStream_loaded. simpl.
      rewrite FRAME_SIZE_value. reflexivity.
    - unfold exec. rewrite _startBrowserStream_rejected. simpl.
      rewrite FRAME_SIZE_value. reflexivity. }
  split.
  { intros mode s. unfold exec. rewrite _startBrowserStream_loaded. simpl.
    apply lookup_insert_eq. }
  split.
  { intros [|]; vm_compute; discriminate. }
  vm_compute. discriminate.
Qed.

(** C4, as stated, fails: the low-latency literal is 256, which is not in the
    tens. *)
Lemma lowLatency_bufferSize_not_in_the_tens :
  pcm_bufferSize (mode_string lowLatency) = 256 ∧
  ¬ tens (pcm_bufferSize (mode_string lowLatency)).
Proof. split; [reflexivity|]. intros [_ H]. vm_compute in H. discriminate. Qed.

(** C4 (amended): [start] takes one of the two modes and gives the worklet
    node one of two literals: 256, a value in the hundreds, for [lowLatency]
    and 64000, a value in the tens of thousands, for [performance].  Whatever
    string reaches the comparison, no other value comes out, and a worklet
    node present after [start] that was not there before has one of the two. *)
Theorem bufferSize_two_literals :
  pcm_bufferSize (mode_string lowLatency) = 256 ∧
  hundreds (pcm_bufferSize (mode_string lowLatency)) ∧
  pcm_bufferSize (mode_string performance) = 64000 ∧
  tens_of_thousands (pcm_bufferSize (mode_string performance)) ∧
  (∀ streamingMode : string,
     pcm_bufferSize streamingMode = 256 ∨ pcm_bufferSize streamingMode = 64000) ∧
  (∀ (mode : StreamingMode) (s : State),
     nodes (exec (start mode ModuleLoaded) s) !! next_node s
     = Some (AudioWorkletNode "pcm-stream"
               match mode with lowLatency => 256 | performance => 64000 end)) ∧
  (∀ (mode : StreamingMode) (loaded : ModuleOutcome) (s : State)
     (r : NodeRef) (name : string) (b : Z),
     nodes (exec (start mode loaded) s) !! r = Some (AudioWorkletNode name b) →
     nodes s !! r = Some (AudioWorkletNode name b) ∨ b = 256 ∨ b = 64000).
Proof.
  split; [reflexivity|].
  split; [change (hundreds 256); unfold hundreds; lia|].
  split; [reflexivity|].
  split; [change (tens_of_thousands 64000); unfold tens_of_thousands; lia|].
  split; [apply pcm_bufferSize_cases|].
  split.
  { intros mode s. unfold start, exec. rewrite _startBrowserStream_loaded. simpl.
    rewrite lookup_insert_eq. by destruct mode. }
  intros mode [|e] s r name b; unfold start, exec.
  - rewrite _startBrowserStream_loaded. simpl.
    destruct (decide (next_node s = r)) as [->|Hne].
    + rewrite lookup_insert_eq. intros [= <- <-]. right. apply pcm_bufferSize_cases.
    + rewrite lookup_insert_ne by done. auto.
  - rewrite _startBrowserStream_rejected. simpl. auto.
Qed.

(** ** The transport handler *)

Lemma pcm_onmessage_never_throws (data : Frame) (s : State) :
  pcm_onmessage data s = Normal tt (exec (pcm_onmessage data) s).
Proof.
  unfold pcm_onmessage. js_unfold.
  destruct (_ws s) as [w|]; [|done]. by destruct (readyState w).
Qed.

Lemma pcm_onmessage_open (data : Frame) (s : State) :
  ws_open s = true →
  ws_sent (exec (pcm_onmessage data) s) = ws_sent s ++ [data] ∧
  (readyState <$> _ws (exec (pcm_onmessage data) s)) = (readyState <$> _ws s).
Proof.
  unfold ws_open, ws_sent, pcm_onmessage. js_unfold.
  destruct (_ws s) as [w|] eqn:Hw; [|done].
  destruct (readyState w) eqn:Hr; try done. simpl. by rewrite Hr.
Qed.

Lemma pcm_onmessage_not_open (data : Frame) (s : State) :
  ws_open s = false → exec (pcm_onmessage data) s = s.
Proof.
  unfold ws_open, pcm_onmessage. js_unfold.
  destruct (_ws s) as [w|]; [|done]. by destruct (readyState w).
Qed.

Lemma ws_transition_sent (rs : ReadyState) (s : State) :
  ws_sent (exec (ws_transition rs) s) = ws_sent s ∧
  (readyState <$> _ws (exec (ws_transition rs) s)) = ((λ _, rs) <$> (readyState <$> _ws s)).
Proof.
  unfold ws_sent, ws_transition. js_unfold.
  destruct (_ws s) as [w|] eqn:Hw; simpl; rewrite ?Hw; done.
Qed.

Lemma ws_open_conn (s : State) :
  ws_open s = match readyState <$> _ws s with Some OPEN => true | _ => false end.
Proof. unfold ws_open. by destruct (_ws s). Qed.

Lemma run_cons (e : Event) (evs : list Event) (s : State) :
  run (e :: evs) s = run evs (exec (handle e) s).
Proof. reflexivity. Qed.

Lemma run_frames_while_open (evs : list Event) (s : State) :
  ws_sent (run evs s) = ws_sent s ++ frames_while_open (readyState <$> _ws s) evs.
Proof.
  revert s. induction evs as [|[data|rs] evs IH]; intros s.
  - simpl. by rewrite app_nil_r.
  - rewrite run_cons, IH. simpl handle. simpl frames_while_open.
    destruct (ws_open s) eqn:Ho.
    + destruct (pcm_onmessage_open data s Ho) as [-> ->].
      rewrite ws_open_conn in Ho.
      destruct (readyState <$> _ws s) as [[]|]; try done.
      by rewrite <- app_assoc.
    + rewrite (pcm_onmessage_not_open data s Ho).
      rewrite ws_open_conn in Ho.
      by destruct (readyState <$> _ws s) as [[]|].
  - rewrite run_cons, IH. simpl handle. simpl frames_while_open.
    by destruct (ws_transition_sent rs s) as [-> ->].
Qed.

Lemma frames_while_open_sublist (conn : option ReadyState) (evs : list Event) :
  sublist (frames_while_open conn evs) (frames_of evs).
Proof.
  revert conn. induction evs as [|[data|rs] evs IH]; intros conn; simpl.
  - constructor.
  - destruct conn as [[]|]; try (apply sublist_cons, IH). apply sublist_skip, IH.
  - apply IH.
Qed.

(** C3, as stated, fails: with the websocket still connecting, the handler
    drops the frame and leaves the whole state as it was, so nothing in the
    state counts the drop. *)
Lemma dropped_frame_is_not_counted :
  ws_open connecting_state = false ∧
  exec (pcm_onmessage frame0) connecting_state = connecting_state ∧
  ¬ ∃ drop_counter : State → nat,
      drop_counter (exec (pcm_onmessage frame0) connecting_state)
      = S (drop_counter connecting_state).
Proof.
  assert (exec (pcm_onmessage frame0) connecting_state = connecting_state) as E
    by (by apply pcm_onmessage_not_open).
  split; [reflexivity|]. split; [exact E|].
  intros [c Hc]. rewrite E in Hc. lia.
Qed.

(** C3 (amended): the handler never throws.  A frame is passed to the
    websocket exactly when a websocket exists and is OPEN at that moment, and
    is then appended after everything sent before; otherwise the frame is
    dropped and the state is left exactly as it was (there is no drop
    counter).  Over any sequence of frames and ready-state changes, the
    websocket receives the frames that arrived while it was open, in emission
    order. *)
Theorem pcm_onmessage_sends_iff_open :
  (∀ (data : Frame) (s : State),
     pcm_onmessage data s = Normal tt (exec (pcm_onmessage data) s)) ∧
  (∀ (data : Frame) (s : State),
     if ws_open s
     then ws_sent (exec (pcm_onmessage data) s) = ws_sent s ++ [data]
     else exec (pcm_onmessage data) s = s) ∧
  (∀ (data : Frame) (s : State),
     ws_sent (exec (pcm_onmessage data) s) = ws_sent s ++ [data] ↔ ws_open s = true) ∧
  (∀ (evs : list Event) (s : State),
     ws_sent (run evs s)
     = ws_sent s ++ frames_while_open (readyState <$> _ws s) evs) ∧
  (∀ (evs : list Event) (s : State),
     ∃ delivered : list Frame,
       ws_sent (run evs s) = ws_sent s ++ delivered ∧
       sublist delivered (frames_of evs)).
Proof.
  split; [apply pcm_onmessage_never_throws|].
  split.
  { intros data s. destruct (ws_open s) eqn:Ho.
    - by apply pcm_onmessage_open.
    - by apply pcm_onmessage_not_open. }
  split.
  { intros data s. split.
    - destruct (ws_open s) eqn:Ho; [done|].
      rewrite (pcm_onmessage_not_open data s Ho). intros E.
      apply (f_equal length) in E. rewrite length_app in E. simpl in E. lia.
    - intros Ho. by apply pcm_onmessage_open. }
  split; [apply run_frames_while_open|].
  intros evs s. eexists. split; [apply run_frames_while_open|].
  apply frames_while_open_sublist.
Qed.

(** ** A rejected stream request *)

Lemma elem_of_connections (e : NodeRef * NodeRef) (c : gset (NodeRef * NodeRef)) :
  bool_decide (e ∈ c) = true → e ∈ c.
Proof. intros H. by apply bool_decide_eq_true in H. Qed.

Lemma startBrowserViewStream_rejected (viewId : Z) (h : string) (err : JsError)
    (s : State) :
  startBrowserViewStream viewId h (GumRejected err) s
  = Normal tt
      (set_console
         (console s ++
            [ErrorText ("Unable to start stream for web view " +:+ pretty viewId);
             ErrorObject err]) s).
Proof.
  unfold startBrowserViewStream, console_error. js_unfold. simpl.
  by rewrite <- app_assoc.
Qed.

Lemma startExternalAudioCapture_rejected (deviceId : string) (err : JsError)
    (s : State) :
  startExternalAudioCapture deviceId (GumRejected err) s
  = Normal tt
      (set_console
         (console s ++
            [ErrorText ("Unable to start stream for external audio device "
                        +:+ deviceId);
             ErrorObject err]) s).
Proof.
  unfold startExternalAudioCapture, console_error. js_unfold. simpl.
  by rewrite <- app_assoc.
Qed.

(** C6: when [getUserMedia] rejects, both start methods complete normally,
    append the diagnostic and the error to the console, and change nothing
    else: no stream record, no gain record, no node and no connection is
    added, for the requested id or any other. *)
Theorem rejected_getUserMedia_leaves_no_partial_state :
  (∀ (viewId : Z) (h : string) (err : JsError) (s : State),
     let s' := exec (startBrowserViewStream viewId h (GumRejected err)) s in
     startBrowserViewStream viewId h (GumRejected err) s = Normal tt s' ∧
     console s'
     = console s ++
         [ErrorText ("Unable to start stream for web view " +:+ pretty viewId);
          ErrorObject err] ∧
     s' = set_console (console s') s ∧
     _mediaStreams s' = _mediaStreams s ∧
     _mediaStreamOutputs s' = _mediaStreamOutputs s ∧
     nodes s' = nodes s ∧
     connections s' = connections s) ∧
  (∀ (deviceId : string) (err : JsError) (s : State),
     let s' := exec (startExternalAudioCapture deviceId (GumRejected err)) s in
     startExternalAudioCapture deviceId (GumRejected err) s = Normal tt s' ∧
     console s'
     = console s ++
         [ErrorText ("Unable to start stream for external audio device "
                     +:+ deviceId);
          ErrorObject err] ∧
     s' = set_console (console s') s ∧
     _externalAudioStreams s' = _externalAudioStreams s ∧
     _externalAudioStreamOutputs s' = _externalAudioStreamOutputs s ∧
     nodes s' = nodes s ∧
     connections s' = connections s).
Proof.
  split.
  - intros viewId h err s s'. subst s'. unfold exec.
    rewrite startBrowserViewStream_rejected. by repeat split.
  - intros deviceId err s s'. subst s'. unfold exec.
    rewrite startExternalAudioCapture_rejected. by repeat split.
Qed.

(** ** Stopping a capture *)

Lemma for_of_track_stop (l : list TrackRef) (s : State) :
  for_of l track_stop s
  = Normal tt (set_ended_tracks (list_to_set l ∪ ended_tracks s) s).
Proof.
  revert s. induction l as [|t l IH]; intros s.
  - simpl. unfold mret, JS_ret. f_equal. destruct s; simpl.
    unfold set_ended_tracks; simpl. f_equal. by rewrite union_empty_l_L.
  - simpl. unfold mbind, JS_bind. unfold track_stop at 1, modify. rewrite IH.
    unfold set_ended_tracks; simpl. do 2 f_equal.
    rewrite (assoc_L (∪)). f_equal. apply (comm_L (∪)).
Qed.

Lemma stopBrowserViewStream_active (viewId : Z) (stream : MediaStream) (s : State) :
  _mediaStreams s !! viewId = Some stream →
  stopBrowserViewStream viewId s
  = Normal tt
      (set_mediaStreams (delete viewId (_mediaStreams s))
         (set_ended_tracks (list_to_set (getTracks stream) ∪ ended_tracks s) s)).
Proof.
  intros H. unfold stopBrowserViewStream. js_unfold. rewrite H.
  by rewrite for_of_track_stop.
Qed.

Lemma stopBrowserViewStream_inactive (viewId : Z) (s : State) :
  _mediaStreams s !! viewId = None → stopBrowserViewStream viewId s = Normal tt s.
Proof. intros H. unfold stopBrowserViewStream. js_unfold. by rewrite H. Qed.

Lemma stopExternalAudioCapture_active (deviceId : string) (stream : MediaStream)
    (s : State) :
  _externalAudioStreams s !! deviceId = Some stream →
  stopExternalAudioCapture deviceId s
  = Normal tt
      (set_externalAudioStreamOutputs (delete deviceId (_externalAudioStreamOutputs s))
         (set_externalAudioStreams (delete deviceId (_externalAudioStreams s))
            (set_ended_tracks (list_to_set (getTracks stream) ∪ ended_tracks s) s))).
Proof.
  intros H. unfold stopExternalAudioCapture. js_unfold. rewrite H.
  by rewrite for_of_track_stop.
Qed.

Lemma stopExternalAudioCapture_inactive (deviceId : string) (s : State) :
  _externalAudioStreams s !! deviceId = None →
  stopExternalAudioCapture deviceId s = Normal tt s.
Proof. intros H. unfold stopExternalAudioCapture. js_unfold. by rewrite H. Qed.




(** ** An invariant of the gain registries *)

Section registries.
Variables (views : gmap Z NodeRef) (devices : gmap string NodeRef).
Variables (heap : gmap NodeRef AudioNode) (next : NodeRef).
Hypothesis ok : registries_ok views devices heap next.

Lemma registries_ok_new_node (n : AudioNode) :
  registries_ok views devices (<[next := n]> heap) (S next).
Proof.
  destruct ok as (Hv & Hd & Hx). split; [|split].
  - intros id g H. destruct (Hv _ _ H) as [Hlt [v Hg]]. split; [lia|].
    exists v. by rewrite lookup_insert_ne by lia.
  - intros d g H. destruct (Hd _ _ H) as [Hlt [v Hg]]. split; [lia|].
    exists v. by rewrite lookup_insert_ne by lia.
  - exact Hx.
Qed.

Lemma registries_ok_register_view (id : Z) (v0 : Z) :
  registries_ok (<[id := next]> views) devices
    (<[next := GainNode v0]> heap) (S next).
Proof.
  destruct ok as (Hv & Hd & Hx). split; [|split].
  - intros id' g. rewrite lookup_insert. case_decide as E.
    + intros [= <-]. split; [lia|]. exists v0. apply lookup_insert_eq.
    + intros H. destruct (Hv _ _ H) as [Hlt [v Hg]]. split; [lia|].
      exists v. by rewrite lookup_insert_ne by lia.
  - intros d g H. destruct (Hd _ _ H) as [Hlt [v Hg]]. split; [lia|].
    exists v. by rewrite lookup_insert_ne by lia.
  - intros id' d g. rewrite lookup_insert. case_decide as E.
    + intros [= <-] H. destruct (Hd _ _ H). lia.
    + apply Hx.
Qed.

Lemma registries_ok_register_device (d : string) (v0 : Z) :
  registries_ok views (<[d := next]> devices)
    (<[next := GainNode v0]> heap) (S next).
Proof.
  destruct ok as (Hv & Hd & Hx). split; [|split].
  - intros id g H. destruct (Hv _ _ H) as [Hlt [v Hg]]. split; [lia|].
    exists v. by rewrite lookup_insert_ne by lia.
  - intros d' g. rewrite lookup_insert. case_decide as E.
    + intros [= <-]. split; [lia|]. exists v0. apply lookup_insert_eq.
    + intros H. destruct (Hd _ _ H) as [Hlt [v Hg]]. split; [lia|].
      exists v. by rewrite lookup_insert_ne by lia.
  - intros id d' g Hi. rewrite lookup_insert. case_decide as E.
    + intros [= <-]. destruct (Hv _ _ Hi). lia.
    + intros H. exact (Hx _ _ _ Hi H).
Qed.

Lemma registries_ok_set_gain (v0 : Z) (g0 : NodeRef) :
  registries_ok views devices (alter (set_gain v0) g0 heap) next.
Proof.
  assert (∀ g, (∃ v, heap !! g = Some (GainNode v)) →
               ∃ v, alter (set_gain v0) g0 heap !! g = Some (GainNode v)) as A.
  { intros g [v Hg]. rewrite lookup_alter. case_decide as E.
    - subst g0. rewrite Hg. by exists v0.
    - by exists v. }
  destruct ok as (Hv & Hd & Hx). split; [|split].
  - intros id g H. destruct (Hv _ _ H). auto.
  - intros d g H. destruct (Hd _ _ H). auto.
  - exact Hx.
Qed.

Lemma registries_ok_delete_device (d : string) :
  registries_ok views (delete d devices) heap next.
Proof.
  destruct ok as (Hv & Hd & Hx). split; [|split].
  - exact Hv.
  - intros d' g H. apply lookup_delete_Some in H as [_ H]. eauto.
  - intros id d' g Hi H. apply lookup_delete_Some in H as [_ H]. eauto.
Qed.
End registries.

Lemma wf_constructor : wf constructor.
Proof.
  unfold wf, registries_ok. simpl.
  split; [|split]; intros *; rewrite lookup_empty; done.
Qed.

Lemma wf_call (c : Call) (s : State) : wf s → wf (exec (call c) s).
Proof.
  unfold wf. intros H. destruct c as
    [port|mode [|e]|id muted|loopback|d [[|n]|e]|d|viewId h [[|n]|e]|viewId
    |[data|rs]| |code]; simpl call.
  - by apply registries_ok_new_node.
  - by apply registries_ok_new_node.
  - exact H.
  - unfold setMuted. js_unfold.
    destruct (_mediaStreamOutputs s !! id); [|exact H].
    by apply registries_ok_set_gain.
  - unfold setLoopback. js_unfold. by destruct (_audioOutputElement s).
  - by apply registries_ok_register_device.
  - by apply registries_ok_new_node, registries_ok_register_device.
  - exact H.
  - unfold exec. destruct (_externalAudioStreams s !! d) as [stream|] eqn:E.
    + rewrite (stopExternalAudioCapture_active _ _ _ E).
      by apply registries_ok_delete_device.
    + by rewrite (stopExternalAudioCapture_inactive _ _ E).
  - by apply registries_ok_register_view.
  - by apply registries_ok_new_node, registries_ok_register_view.
  - exact H.
  - unfold exec. destruct (_mediaStreams s !! viewId) as [stream|] eqn:E.
    + by rewrite (stopBrowserViewStream_active _ _ _ E).
    + by rewrite (stopBrowserViewStream_inactive _ _ E).
  - unfold pcm_onmessage. js_unfold.
    destruct (_ws s) as [w|]; [|exact H]. by destruct (readyState w).
  - unfold ws_transition. js_unfold. by destruct (_ws s).
  - unfold onloadedmetadata. js_unfold. by destruct (_audioOutputElement s).
  - exact H.
Qed.

Lemma reachable_wf (s : State) : reachable s → wf s.
Proof. induction 1; [apply wf_constructor | by apply wf_call]. Qed.

(** ** Starting a capture on an id that is already active *)

Lemma reachable_view5_started : reachable view5_started.
Proof.
  exact (reachable_call (StartBrowserViewStream 5 "h1" (GumResolved 1)) _
           reachable_constructor).
Qed.

Lemma reachable_view5_and_mic1 : reachable view5_and_mic1.
Proof.
  exact (reachable_call (StartExternalAudioCapture "mic-1" (GumResolved 1)) _
           reachable_view5_started).
Qed.









(** ** Muting *)

Lemma setMuted_registered (id : Z) (muted : bool) (g : NodeRef) (s : State) :
  _mediaStreamOutputs s !! id = Some g →
  setMuted id muted s
  = Normal tt
      (set_nodes (alter (set_gain (if muted then 0 else 1)) g (nodes s)) s).
Proof. intros H. unfold setMuted. js_unfold. by rewrite H. Qed.

Lemma setMuted_unregistered (id : Z) (muted : bool) (s : State) :
  _mediaStreamOutputs s !! id = None → setMuted id muted s = Normal tt s.
Proof. intros H. unfold setMuted. js_unfold. by rewrite H. Qed.

Lemma gain_of_set_gain (v : Z) (g : NodeRef) (s : State) :
  gain_of (set_nodes (alter (set_gain v) g (nodes s)) s) g
  = (λ _, v) <$> gain_of s g.
Proof.
  unfold gain_of. simpl. rewrite lookup_alter_eq.
  by destruct (nodes s !! g) as [[]|].
Qed.

Lemma gain_of_set_gain_ne (v : Z) (g g' : NodeRef) (s : State) :
  g ≠ g' →
  gain_of (set_nodes (alter (set_gain v) g (nodes s)) s) g' = gain_of s g'.
Proof. intros H. unfold gain_of. simpl. by rewrite lookup_alter_ne. Qed.

Lemma alter_set_gain_twice (v : Z) (g : NodeRef) (ns : gmap NodeRef AudioNode) :
  alter (set_gain v) g (alter (set_gain v) g ns) = alter (set_gain v) g ns.
Proof.
  apply map_eq. intros i. destruct (decide (g = i)) as [->|Hne].
  - rewrite !lookup_alter_eq. by destruct (ns !! i) as [[]|].
  - by rewrite !lookup_alter_ne.
Qed.

Lemma setMuted_twice (id : Z) (muted : bool) (s : State) :
  exec (setMuted id muted) (exec (setMuted id muted) s) = exec (setMuted id muted) s.
Proof.
  unfold exec. destruct (_mediaStreamOutputs s !! id) as [g|] eqn:H.
  - rewrite (setMuted_registered _ _ _ _ H).
    rewrite (setMuted_registered id muted g) by exact H.
    unfold set_nodes. simpl. by rewrite alter_set_gain_twice.
  - by rewrite !(setMuted_unregistered _ _ _ H).
Qed.

(** C5, as stated, fails for external devices: with "mic-1" captured and its
    gain node at 1, no call of [setMuted] brings that gain to 0. *)
Lemma setMuted_does_not_reach_external_devices :
  _externalAudioStreamOutputs mic1_started !! "mic-1" = Some 1%nat ∧
  gain_of mic1_started 1%nat = Some 1 ∧
  ¬ ∃ id : Z, gain_of (exec (setMuted id true) mic1_started) 1%nat = Some 0.
Proof.
  split; [reflexivity|]. split; [reflexivity|].
  intros [id H]. unfold exec in H.
  rewrite setMuted_unregistered in H by apply lookup_empty.
  discriminate H.
Qed.

(** C5 (amended): [setMuted] serves browser views only.  It never throws and
    changes nothing but the node heap.  With no gain record under the view id
    it changes nothing at all; with one, the registered gain node gets gain 0
    when muted and 1 when unmuted.  Every node other than the one registered
    under that view id keeps its value; in a reachable state this includes
    the gain node of every external device, for which the class has no mute
    operation. *)
Theorem setMuted_browser_view_only (id : Z) (muted : bool) (s : State) :
  let s' := exec (setMuted id muted) s in
  setMuted id muted s = Normal tt s' ∧
  s' = set_nodes (nodes s') s ∧
  match _mediaStreamOutputs s !! id with
  | None => s' = s
  | Some g => gain_of s' g = (λ _, if muted then 0 else 1) <$> gain_of s g
  end ∧
  (∀ g' : NodeRef,
     _mediaStreamOutputs s !! id ≠ Some g' → nodes s' !! g' = nodes s !! g') ∧
  (reachable s →
     (∀ g : NodeRef,
        _mediaStreamOutputs s !! id = Some g →
        gain_of s' g = Some (if muted then 0 else 1)) ∧
     (∀ (d : string) (g : NodeRef),
        _externalAudioStreamOutputs s !! d = Some g →
        gain_of s' g = gain_of s g)).
Proof.
  intros s'. subst s'. unfold exec.
  destruct (_mediaStreamOutputs s !! id) as [g|] eqn:H.
  - rewrite (setMuted_registered _ _ _ _ H).
    split; [done|]. split; [done|]. split; [apply gain_of_set_gain|]. split.
    + intros g' Hne. simpl. apply lookup_alter_ne. congruence.
    + intros Hr. apply reachable_wf in Hr. destruct Hr as (Hv & Hd & Hx). split.
      * intros g1 Hg1. assert (g1 = g) as -> by congruence.
        rewrite gain_of_set_gain.
        destruct (Hv _ _ H) as [_ [v Hg]]. unfold gain_of. by rewrite Hg.
      * intros d g1 Hd1. apply gain_of_set_gain_ne. intros ->.
        exact (Hx _ _ _ H Hd1).
  - rewrite (setMuted_unregistered _ _ _ H).
    split; [done|]. split; [by destruct s|]. split; [done|]. split; [done|].
    intros _. split; [intros g1 [=]|done].
Qed.

Lemma setMuted_browser_view_only_witness :
  reachable view5_and_mic1 ∧
  _mediaStreamOutputs view5_and_mic1 !! 5 = Some 1%nat ∧
  _externalAudioStreamOutputs view5_and_mic1 !! "mic-1" = Some 3%nat ∧
  gain_of (exec (setMuted 5 true) view5_and_mic1) 1%nat = Some 0 ∧
  gain_of (exec (setMuted 5 true) view5_and_mic1) 3%nat = Some 1.
Proof.
  destruct (setMuted_browser_view_only 5 true view5_and_mic1)
    as (_ & _ & _ & _ & H).
  destruct (H reachable_view5_and_mic1) as [Hview Hdev].
  split; [exact reachable_view5_and_mic1|].
  split; [reflexivity|]. split; [reflexivity|]. split.
  - apply Hview. reflexivity.
  - rewrite (Hdev "mic-1" 3%nat); reflexivity.
Defined.

(** C8: for an id whose gain record points to a gain node, [setMuted] with a
    fixed argument is idempotent: calling it twice leaves the same state as
    calling it once, and after [setMuted(id, true)], once or twice, the gain
    is 0. *)
Theorem setMuted_idempotent (id : Z) (muted : bool) (s : State) (g : NodeRef) :
  _mediaStreamOutputs s !! id = Some g →
  is_Some (gain_of s g) →
  exec (setMuted id muted) (exec (setMuted id muted) s) = exec (setMuted id muted) s ∧
  gain_of (exec (setMuted id true) s) g = Some 0 ∧
  gain_of (exec (setMuted id true) (exec (setMuted id true) s)) g = Some 0.
Proof.
  intros H [v Hg].
  assert (gain_of (exec (setMuted id true) s) g = Some 0) as E.
  { unfold exec. rewrite (setMuted_registered _ _ _ _ H).
    rewrite gain_of_set_gain, Hg. done. }
  split; [apply setMuted_twice|]. split; [exact E|].
  by rewrite setMuted_twice.
Qed.

Lemma setMuted_idempotent_witness :
  exec (setMuted 5 true) (exec (setMuted 5 true) view5_started)
  = exec (setMuted 5 true) view5_started ∧
  gain_of (exec (setMuted 5 true) view5_started) 1%nat = Some 0 ∧
  gain_of (exec (setMuted 5 true) (exec (setMuted 5 true) view5_started)) 1%nat
  = Some 0.
Proof.
  apply (setMuted_idempotent 5 true view5_started 1%nat).
  - reflexivity.
  - exists 1. reflexivity.
Defined.

(** C10: stopping an active browser-view capture removes the id's stream
    record and leaves the gain registry untouched, so the id's gain record
    still points to the same gain node, with the gain it had; a later
    [setMuted] on that id finds the node and sets its gain to 0 or 1. *)
Theorem stopBrowserViewStream_keeps_gain_record
    (viewId : Z) (muted : bool) (s : State) (stream : MediaStream) (g : NodeRef) :
  _mediaStreams s !! viewId = Some stream →
  _mediaStreamOutputs s !! viewId = Some g →
  is_Some (gain_of s g) →
  let s1 := exec (stopBrowserViewStream viewId) s in
  _mediaStreams s1 !! viewId = None ∧
  _mediaStreamOutputs s1 = _mediaStreamOutputs s ∧
  _mediaStreamOutputs s1 !! viewId = Some g ∧
  gain_of s1 g = gain_of s g ∧
  gain_of (exec (setMuted viewId muted) s1) g = Some (if muted then 0 else 1).
Proof.
  intros Hs Ho [v Hg] s1. subst s1. unfold exec at 1 2 3 4 6.
  rewrite (stopBrowserViewStream_active _ _ _ Hs).
  split; [apply lookup_delete_eq|]. split; [done|]. split; [exact Ho|].
  split; [done|].
  unfold exec. rewrite (setMuted_registered viewId muted g) by exact Ho.
  rewrite gain_of_set_gain. unfold gain_of in *. simpl. 
  by destruct (nodes s !! g) as [[]|].
Qed.

Lemma stopBrowserViewStream_keeps_gain_record_witness :
  _mediaStreams view5_stopped !! 5 = None ∧
  _mediaStreamOutputs view5_stopped = _mediaStreamOutputs view5_started ∧
  _mediaStreamOutputs view5_stopped !! 5 = Some 1%nat ∧
  gain_of view5_stopped 1%nat = gain_of view5_started 1%nat ∧
  gain_of (exec (setMuted 5 true) view5_stopped) 1%nat = Some 0.
Proof.
  apply (stopBrowserViewStream_keeps_gain_record 5 true view5_started
           (mkMediaStream 0 [0%nat]) 1%nat).
  - reflexivity.
  - reflexivity.
  - exists 1. reflexivity.
Defined.

(** ** Loopback *)

Lemma ws_sent_run_same_ws (evs : list Event) (s s' : State) :
  _ws s' = _ws s → ws_sent (run evs s') = ws_sent (run evs s).
Proof.
  intros E. rewrite !run_frames_while_open. unfold ws_sent. by rewrite E.
Qed.

(** C9: [setLoopback] assigns [!loopback] to the [muted] flag of the playback
    element (and throws, changing nothing, while the element does not exist
    yet).  It changes no other part of the state: nodes and connections,
    among them the worklet's tap on the mix bus, and the websocket stay as
    they were, and the frames sent over any later run of events are the same
    as without the call. *)
Theorem setLoopback_only_toggles_muted (loopback : bool) (s : State) :
  let s' := exec (setLoopback loopback) s in
  match _audioOutputElement s with
  | Some el =>
      setLoopback loopback s = Normal tt s' ∧
      _audioOutputElement s'
      = Some (mkAudio (srcObject el) (negb loopback) (paused el))
  | None => (∃ e : JsError, setLoopback loopback s = Throw e s) ∧ s' = s
  end ∧
  s' = set_audioOutputElement (_audioOutputElement s') s ∧
  nodes s' = nodes s ∧
  connections s' = connections s ∧
  _ws s' = _ws s ∧
  (∀ evs : list Event, ws_sent (run evs s') = ws_sent (run evs s)).
Proof.
  intros s'.
  assert (s' = set_audioOutputElement (_audioOutputElement s') s) as E.
  { subst s'. unfold setLoopback. js_unfold.
    destruct (_audioOutputElement s) eqn:Hel; [done|].
    destruct s; simpl in *. by rewrite Hel. }
  assert (_ws s' = _ws s) as Ews by (by rewrite E).
  split.
  - subst s'. unfold setLoopback. js_unfold.
    destruct (_audioOutputElement s) eqn:Hel; [done|].
    split; [by eexists | done].
  - split; [exact E|]. split; [by rewrite E|]. split; [by rewrite E|].
    split; [exact Ews|]. intros evs. by apply ws_sent_run_same_ws.
Qed.

Lemma setLoopback_only_toggles_muted_witness :
  (0%nat, 2%nat) ∈ connections streaming_state ∧
  nodes streaming_state !! 2%nat = Some (AudioWorkletNode "pcm-stream" 256) ∧
  connections (exec (setLoopback false) streaming_state)
  = connections streaming_state ∧
  (muted <$> _audioOutputElement (exec (setLoopback false) streaming_state))
  = Some true ∧
  ws_sent (run [WsReadyState OPEN; PortMessage frame0]
             (exec (setLoopback false) streaming_state)) = [frame0].
Proof.
  destruct (setLoopback_only_toggles_muted false streaming_state)
    as (_ & _ & _ & Hc & _ & Hsent).
  split; [by apply elem_of_connections|]. split; [reflexivity|].
  split; [exact Hc|]. split; [reflexivity|].
  rewrite Hsent. reflexivity.
Defined.

(** * Further properties of the capture manager *)

(** ** What one call does to the registries and the heap *)

Lemma call_audioOutputNode (c : Call) (s : State) :
  _audioOutputNode (exec (call c) s) = _audioOutputNode s.
Proof.
  destruct c as
    [port|mode [|e]|id muted|loopback|d [[|n]|e]|d|viewId h [[|n]|e]|viewId
    |[data|rs]| |code]; simpl call; try reflexivity.
  - unfold setMuted. js_unfold. by destruct (_mediaStreamOutputs s !! id).
  - unfold setLoopback. js_unfold. by destruct (_audioOutputElement s).
  - unfold exec. destruct (_externalAudioStreams s !! d) as [stream|] eqn:E.
    + by rewrite (stopExternalAudioCapture_active _ _ _ E).
    + by rewrite (stopExternalAudioCapture_inactive _ _ E).
  - unfold exec. destruct (_mediaStreams s !! viewId) as [stream|] eqn:E.
    + by rewrite (stopBrowserViewStream_active _ _ _ E).
    + by rewrite (stopBrowserViewStream_inactive _ _ E).
  - unfold pcm_onmessage. js_unfold.
    destruct (_ws s) as [w|]; [|done]. by destruct (readyState w).
  - unfold ws_transition. js_unfold. by destruct (_ws s).
  - unfold onloadedmetadata. js_unfold. by destruct (_audioOutputElement s).
Qed.

(** The heap after a call has one of four shapes. *)
Lemma call_nodes_shape (c : Call) (s : State) :
  let s' := exec (call c) s in
  (nodes s' = nodes s ∧ next_node s' = next_node s) ∨
  (∃ n : AudioNode,
     (n = GainNode 1 ∨ ∀ v, n ≠ GainNode v) ∧
     nodes s' = <[next_node s := n]> (nodes s) ∧
     next_node s' = S (next_node s)) ∨
  (∃ n : AudioNode,
     (∀ v, n ≠ GainNode v) ∧
     nodes s' = <[S (next_node s) := n]> (<[next_node s := GainNode 1]> (nodes s)) ∧
     next_node s' = S (S (next_node s))) ∨
  (∃ (id : Z) (g : NodeRef) (v : Z),
     (v = 0 ∨ v = 1) ∧
     _mediaStreamOutputs s !! id = Some g ∧
     nodes s' = alter (set_gain v) g (nodes s) ∧
     next_node s' = next_node s).
Proof.
  destruct c as
    [port|mode [|e]|id muted|loopback|d [[|n]|e]|d|viewId h [[|n]|e]|viewId
    |[data|rs]| |code]; simpl.
  - right; left. eexists. split; [|split; reflexivity]. by right.
  - right; left. eexists. split; [|split; reflexivity]. by right.
  - by left.
  - unfold setMuted. js_unfold.
    destruct (_mediaStreamOutputs s !! id) as [g|] eqn:E; [|by left].
    do 3 right. exists id, g, (if muted then 0 else 1).
    split; [by destruct muted; auto|]. by split.
  - unfold setLoopback. js_unfold. destruct (_audioOutputElement s); by left.
  - right; left. eexists. split; [|split; reflexivity]. by left.
  - do 2 right; left. eexists. split; [|split; reflexivity]. done.
  - by left.
  - unfold exec. destruct (_externalAudioStreams s !! d) as [stream|] eqn:E.
    + rewrite (stopExternalAudioCapture_active _ _ _ E). by left.
    + rewrite (stopExternalAudioCapture_inactive _ _ E). by left.
  - right; left. eexists. split; [|split; reflexivity]. by left.
  - do 2 right; left. eexists. split; [|split; reflexivity]. done.
  - by left.
  - unfold exec. destruct (_mediaStreams s !! viewId) as [stream|] eqn:E.
    + rewrite (stopBrowserViewStream_active _ _ _ E). by left.
    + rewrite (stopBrowserViewStream_inactive _ _ E). by left.
  - unfold pcm_onmessage. js_unfold.
    destruct (_ws s) as [w|]; [|by left]. destruct (readyState w); by left.
  - unfold ws_transition. js_unfold. destruct (_ws s); by left.
  - unfold onloadedmetadata. js_unfold. destruct (_audioOutputElement s); by left.
  - by left.
Qed.

Lemma elem_of_seq_bounds (t a n : nat) : t ∈ seq a n → (a ≤ t < a + n)%nat.
Proof. intros H. by apply elem_of_seq in H. Qed.

(** After a call, a record is one that was there before, or the one record
    the call added: a node and tracks allocated by that call. *)
Lemma call_registry_step (c : Call) (s : State) :
  let s' := exec (call c) s in
  (next_node s ≤ next_node s')%nat ∧
  (next_track s ≤ next_track s')%nat ∧
  ∃ k0 : SourceKey,
    (∀ (k : SourceKey) (g : NodeRef),
       output_at s' k = Some g →
       output_at s k = Some g ∨
       (k = k0 ∧ g = next_node s ∧ (next_node s < next_node s')%nat)) ∧
    (∀ (k : SourceKey) (st : MediaStream),
       stream_at s' k = Some st →
       stream_at s k = Some st ∨
       (k = k0 ∧ ∀ t, t ∈ getTracks st → (next_track s ≤ t < next_track s')%nat)).
Proof.
  assert (∀ s' : State,
            (next_node s ≤ next_node s')%nat →
            (next_track s ≤ next_track s')%nat →
            _mediaStreams s' = _mediaStreams s →
            _mediaStreamOutputs s' = _mediaStreamOutputs s →
            _externalAudioStreams s' = _externalAudioStreams s →
            _externalAudioStreamOutputs s' = _externalAudioStreamOutputs s →
            (next_node s ≤ next_node s')%nat ∧
            (next_track s ≤ next_track s')%nat ∧
            ∃ k0 : SourceKey,
              (∀ (k : SourceKey) (g : NodeRef),
                 output_at s' k = Some g →
                 output_at s k = Some g ∨
                 (k = k0 ∧ g = next_node s ∧ (next_node s < next_node s')%nat)) ∧
              (∀ (k : SourceKey) (st : MediaStream),
                 stream_at s' k = Some st →
                 stream_at s k = Some st ∨
                 (k = k0 ∧ ∀ t, t ∈ getTracks st →
                             (next_track s ≤ t < next_track s')%nat))) as same.
  { intros s' Hn Ht E1 E2 E3 E4. split; [done|]. split; [done|].
    exists (inl 0). split; intros [id|d] x; simpl; rewrite ?E1, ?E2, ?E3, ?E4; auto. }
  destruct c as
    [port|mode [|e]|id muted|loopback|d [n|e]|d|viewId h [n|e]|viewId
    |[data|rs]| |code]; simpl call.
  - apply same; simpl; try done; lia.
  - apply same; simpl; try done; lia.
  - by apply same.
  - unfold setMuted. js_unfold.
    destruct (_mediaStreamOutputs s !! id); by apply same.
  - unfold setLoopback. js_unfold. destruct (_audioOutputElement s); by apply same.
  - (* startExternalAudioCapture, resolved *)
    assert (∀ k st,
              stream_at (exec (startExternalAudioCapture d (GumResolved n)) s) k
              = Some st →
              stream_at s k = Some st ∨
              (k = inr d ∧ getTracks st = seq (next_track s) n)) as Hst.
    { intros [id|d'] st; destruct n; simpl; auto.
      - rewrite lookup_insert. case_decide; [intros [= <-]; subst; auto | auto].
      - rewrite lookup_insert. case_decide; [intros [= <-]; subst; auto | auto]. }
    assert (∀ k g,
              output_at (exec (startExternalAudioCapture d (GumResolved n)) s) k
              = Some g →
              output_at s k = Some g ∨ (k = inr d ∧ g = next_node s)) as Hout.
    { intros [id|d'] g; destruct n; simpl; auto.
      - rewrite lookup_insert. case_decide; [intros [= <-]; subst; auto | auto].
      - rewrite lookup_insert. case_decide; [intros [= <-]; subst; auto | auto]. }
    assert (next_track (exec (startExternalAudioCapture d (GumResolved n)) s)
            = (next_track s + n)%nat) as Et by (by destruct n).
    assert (next_node s
            < next_node (exec (startExternalAudioCapture d (GumResolved n)) s))%nat
      as Hn by (destruct n; simpl; lia).
    split; [lia|]. split; [lia|]. exists (inr d). split.
    + intros k g Hk. destruct (Hout k g Hk) as [|[-> ->]]; auto.
    + intros k st Hk. destruct (Hst k st Hk) as [|[-> E]]; [auto|].
      right. split; [done|]. intros t. rewrite E, Et. apply elem_of_seq_bounds.
  - by apply same.
  - unfold exec. destruct (_externalAudioStreams s !! d) as [stream|] eqn:E.
    + rewrite (stopExternalAudioCapture_active _ _ _ E).
      split; [done|]. split; [done|]. exists (inl 0).
      split; intros [id|d'] x; simpl; auto; intros H;
        apply lookup_delete_Some in H as [_ H]; auto.
    + rewrite (stopExternalAudioCapture_inactive _ _ E). by apply same.
  - (* startBrowserViewStream, resolved *)
    assert (∀ k st,
              stream_at (exec (startBrowserViewStream viewId h (GumResolved n)) s) k
              = Some st →
              stream_at s k = Some st ∨
              (k = inl viewId ∧ getTracks st = seq (next_track s) n)) as Hst.
    { intros [id|d'] st; destruct n; simpl; auto.
      - rewrite lookup_insert. case_decide; [intros [= <-]; subst; auto | auto].
      - rewrite lookup_insert. case_decide; [intros [= <-]; subst; auto | auto]. }
    assert (∀ k g,
              output_at (exec (startBrowserViewStream viewId h (GumResolved n)) s) k
              = Some g →
              output_at s k = Some g ∨ (k = inl viewId ∧ g = next_node s)) as Hout.
    { intros [id|d'] g; destruct n; simpl; auto.
      - rewrite lookup_insert. case_decide; [intros [= <-]; subst; auto | auto].
      - rewrite lookup_insert. case_decide; [intros [= <-]; subst; auto | auto]. }
    assert (next_track (exec (startBrowserViewStream viewId h (GumResolved n)) s)
            = (next_track s + n)%nat) as Et by (by destruct n).
    assert (next_node s
            < next_node (exec (startBrowserViewStream viewId h (GumResolved n)) s))%nat
      as Hn by (destruct n; simpl; lia).
    split; [lia|]. split; [lia|]. exists (inl viewId). split.
    + intros k g Hk. destruct (Hout k g Hk) as [|[-> ->]]; auto.
    + intros k st Hk. destruct (Hst k st Hk) as [|[-> E]]; [auto|].
      right. split; [done|]. intros t. rewrite E, Et. apply elem_of_seq_bounds.
  - by apply same.
  - unfold exec. destruct (_mediaStreams s !! viewId) as [stream|] eqn:E.
    + rewrite (stopBrowserViewStream_active _ _ _ E).
      split; [done|]. split; [done|]. exists (inl 0).
      split; intros [id|d'] x; simpl; auto; intros H;
        apply lookup_delete_Some in H as [_ H]; auto.
    + rewrite (stopBrowserViewStream_inactive _ _ E). by apply same.
  - unfold pcm_onmessage. js_unfold.
    destruct (_ws s) as [w|]; [|by apply same]. destruct (readyState w); by apply same.
  - unfold ws_transition. js_unfold. destruct (_ws s); by apply same.
  - unfold onloadedmetadata. js_unfold. destruct (_audioOutputElement s); by apply same.
  - by apply same.
Qed.

(** No call removes a connection or brings an ended track back, and a track
    ends only when a stop reaches the recorded stream that holds it. *)
Lemma call_connections_tracks (c : Call) (s : State) :
  let s' := exec (call c) s in
  connections s ⊆ connections s' ∧
  ended_tracks s ⊆ ended_tracks s' ∧
  (∀ t : TrackRef,
     t ∈ ended_tracks s' →
     t ∈ ended_tracks s ∨
     ∃ (k : SourceKey) (st : MediaStream),
       stream_at s k = Some st ∧ t ∈ getTracks st).
Proof.
  assert (∀ s' : State,
            connections s ⊆ connections s' →
            ended_tracks s' = ended_tracks s →
            connections s ⊆ connections s' ∧
            ended_tracks s ⊆ ended_tracks s' ∧
            (∀ t : TrackRef,
               t ∈ ended_tracks s' →
               t ∈ ended_tracks s ∨
               ∃ (k : SourceKey) (st : MediaStream),
                 stream_at s k = Some st ∧ t ∈ getTracks st)) as same.
  { intros s' Hc E. rewrite E. auto. }
  destruct c as
    [port|mode [|e]|id muted|loopback|d [[|n]|e]|d|viewId h [[|n]|e]|viewId
    |[data|rs]| |code]; simpl call.
  - apply same; [|done]. simpl. apply union_subseteq_r.
  - apply same; [|done]. simpl. apply union_subseteq_r.
  - by apply same.
  - unfold setMuted. js_unfold.
    destruct (_mediaStreamOutputs s !! id); by apply same.
  - unfold setLoopback. js_unfold. destruct (_audioOutputElement s); by apply same.
  - by apply same.
  - apply same; [|done]. simpl.
    etrans; [|apply union_subseteq_r]. apply union_subseteq_r.
  - by apply same.
  - unfold exec. destruct (_externalAudioStreams s !! d) as [stream|] eqn:E.
    + rewrite (stopExternalAudioCapture_active _ _ _ E). simpl.
      split; [done|]. split; [apply union_subseteq_r|].
      intros t [Ht|Ht]%elem_of_union; [|by left].
      right. exists (inr d), stream. split; [done|].
      by apply elem_of_list_to_set in Ht.
    + rewrite (stopExternalAudioCapture_inactive _ _ E). by apply same.
  - by apply same.
  - apply same; [|done]. simpl.
    etrans; [|apply union_subseteq_r]. apply union_subseteq_r.
  - by apply same.
  - unfold exec. destruct (_mediaStreams s !! viewId) as [stream|] eqn:E.
    + rewrite (stopBrowserViewStream_active _ _ _ E). simpl.
      split; [done|]. split; [apply union_subseteq_r|].
      intros t [Ht|Ht]%elem_of_union; [|by left].
      right. exists (inl viewId), stream. split; [done|].
      by apply elem_of_list_to_set in Ht.
    + rewrite (stopBrowserViewStream_inactive _ _ E). by apply same.
  - unfold pcm_onmessage. js_unfold.
    destruct (_ws s) as [w|]; [|by apply same]. destruct (readyState w); by apply same.
  - unfold ws_transition. js_unfold. destruct (_ws s); by apply same.
  - unfold onloadedmetadata. js_unfold. destruct (_audioOutputElement s); by apply same.
  - by apply same.
Qed.

(** ** Invariants of reachable states *)

Lemma outputs_fresh_injective_call (c : Call) (s : State) :
  outputs_fresh_injective s → outputs_fresh_injective (exec (call c) s).
Proof.
  intros (Hpos & Hlt & Hinj).
  destruct (call_registry_step c s) as (Hn & _ & k0 & Hout & _).
  split; [lia|]. split.
  - intros k g Hk. destruct (Hout k g Hk) as [Hold|(-> & -> & Hnew)]; [|lia].
    specialize (Hlt _ _ Hold). lia.
  - intros k k' g Hk Hk'.
    destruct (Hout k g Hk) as [Hold|(Ek & Eg & Hnew)];
      destruct (Hout k' g Hk') as [Hold'|(Ek' & Eg' & Hnew')].
    + by eapply Hinj.
    + specialize (Hlt _ _ Hold). lia.
    + specialize (Hlt _ _ Hold'). lia.
    + congruence.
Qed.

Lemma streams_fresh_disjoint_call (c : Call) (s : State) :
  streams_fresh_disjoint s → streams_fresh_disjoint (exec (call c) s).
Proof.
  intros (Hlt & Hdis).
  destruct (call_registry_step c s) as (_ & Hn & k0 & _ & Hst).
  split.
  - intros k st t Hk Ht. destruct (Hst k st Hk) as [Hold|(-> & Hnew)].
    + specialize (Hlt _ _ _ Hold Ht). lia.
    + specialize (Hnew _ Ht). lia.
  - intros k k' st st' t Hk Hk' Ht Ht'.
    destruct (Hst k st Hk) as [Hold|(Ek & Hnew)];
      destruct (Hst k' st' Hk') as [Hold'|(Ek' & Hnew')].
    + by eapply Hdis.
    + specialize (Hlt _ _ _ Hold Ht). specialize (Hnew' _ Ht'). lia.
    + specialize (Hlt _ _ _ Hold' Ht'). specialize (Hnew _ Ht). lia.
    + congruence.
Qed.

Lemma heap_ok_call (c : Call) (s : State) :
  outputs_fresh_injective s → heap_ok s → heap_ok (exec (call c) s).
Proof.
  intros (_ & Hlt & _) (Hout & Hbus & Hpos & Hgain).
  split; [by rewrite call_audioOutputNode|].
  destruct (call_nodes_shape c s)
    as [[-> ->]|[(n & Hn & -> & ->)|[(n & Hn & -> & ->)|(id & g & v & Hv & Hg & -> & ->)]]].
  - done.
  - split; [by rewrite lookup_insert_ne by lia|]. split; [lia|].
    intros r v. rewrite lookup_insert. case_decide; [|apply Hgain].
    intros [= ->]. destruct Hn as [[= ->]|Hn]; [auto|]. by destruct (Hn v).
  - split; [by rewrite !lookup_insert_ne by lia|]. split; [lia|].
    intros r v. rewrite lookup_insert. case_decide.
    { intros [= ->]. by destruct (Hn v). }
    rewrite lookup_insert. case_decide; [|apply Hgain]. intros [= ->]. auto.
  - assert (g ≠ 0%nat) as Hg0 by (specialize (Hlt (inl id) g Hg); lia).
    split; [by rewrite lookup_alter_ne|]. split; [done|].
    intros r v'. destruct (decide (g = r)) as [->|Hne].
    + rewrite lookup_alter_eq. destruct (nodes s !! r) as [[]|] eqn:E; simpl;
        try done; intros [= <-]; auto.
    + rewrite lookup_alter_ne by done. apply Hgain.
Qed.

Lemma inv_constructor : inv constructor.
Proof.
  split; [|split].
  - split; [simpl; lia|]. split.
    + intros [id|d] g; simpl; by rewrite lookup_empty.
    + intros [id|d] k' g; simpl; by rewrite lookup_empty.
  - split.
    + intros [id|d] st t; simpl; by rewrite lookup_empty.
    + intros [id|d] k' st st' t; simpl; by rewrite lookup_empty.
  - split; [done|]. split; [done|]. split; [simpl; lia|].
    intros r v. simpl. rewrite lookup_singleton. case_decide; [|done].
    intros [= <-]. auto.
Qed.

Lemma inv_call (c : Call) (s : State) : inv s → inv (exec (call c) s).
Proof.
  intros (H1 & H2 & H3). split; [|split].
  - by apply outputs_fresh_injective_call.
  - by apply streams_fresh_disjoint_call.
  - by apply heap_ok_call.
Qed.

Lemma reachable_inv (s : State) : reachable s → inv s.
Proof. induction 1; [apply inv_constructor | by apply inv_call]. Qed.

Lemma run_calls_snoc (cs : list Call) (c : Call) (s : State) :
  run_calls (cs ++ [c]) s = exec (call c) (run_calls cs s).
Proof. unfold run_calls. by rewrite foldl_app. Qed.

Lemma reachable_run_calls (cs : list Call) (s : State) :
  reachable s → reachable (run_calls cs s).
Proof.
  intros H. induction cs as [|c cs IH] using rev_ind; [done|].
  rewrite run_calls_snoc. by constructor.
Qed.

Lemma orphaned_call (c : Call) (s : State) (t : TrackRef) :
  orphaned s t → orphaned (exec (call c) s) t.
Proof.
  intros (Hlt & Hlive & Hfree).
  destruct (call_registry_step c s) as (_ & Hn & k0 & _ & Hst).
  destruct (call_connections_tracks c s) as (_ & _ & Hended).
  split; [lia|]. split.
  - intros Ht. destruct (Hended t Ht) as [|(k & st & Hk & Hin)]; [done|].
    by apply (Hfree k st).
  - intros k st Hk Hin. destruct (Hst k st Hk) as [Hold|(-> & Hnew)].
    + by apply (Hfree k st).
    + specialize (Hnew _ Hin). lia.
Qed.

Lemma orphaned_run_calls (cs : list Call) (s : State) (t : TrackRef) :
  orphaned s t → orphaned (run_calls cs s) t.
Proof.
  intros H. induction cs as [|c cs IH] using rev_ind; [done|].
  rewrite run_calls_snoc. by apply orphaned_call.
Qed.

(** ** Gains *)

(** X1: in every reachable state every gain in the audio graph is 0 or 1. *)
Theorem reachable_gain_is_0_or_1 (s : State) (r : NodeRef) (v : Z) :
  reachable s → gain_of s r = Some v → v = 0 ∨ v = 1.
Proof.
  intros Hr Hg. apply reachable_inv in Hr as (_ & _ & _ & _ & _ & Hgain).
  unfold gain_of in Hg. destruct (nodes s !! r) as [[]|] eqn:E; try done.
  injection Hg as <-. by apply (Hgain r).
Qed.

Lemma reachable_view5_muted_and_mic1 : reachable view5_muted_and_mic1.
Proof. exact (reachable_call (SetMuted 5 true) _ reachable_view5_and_mic1). Qed.

Lemma reachable_gain_is_0_or_1_witness :
  reachable view5_muted_and_mic1 ∧
  gain_of view5_muted_and_mic1 1%nat = Some 0 ∧
  (0 = 0 ∨ 0 = 1).
Proof.
  split; [exact reachable_view5_muted_and_mic1|]. split; [reflexivity|].
  apply (reachable_gain_is_0_or_1 view5_muted_and_mic1 1%nat 0).
  - exact reachable_view5_muted_and_mic1.
  - reflexivity.
Defined.

(** X2: the mix bus is node 0 with gain 1 in every reachable state; it is in
    no gain record, and no [setMuted] call changes its gain. *)
Theorem mix_bus_is_never_muted (s : State) :
  reachable s →
  _audioOutputNode s = 0%nat ∧
  gain_of s (_audioOutputNode s) = Some 1 ∧
  (∀ k : SourceKey, output_at s k ≠ Some (_audioOutputNode s)) ∧
  (∀ (id : Z) (muted : bool),
     gain_of (exec (setMuted id muted) s) (_audioOutputNode s) = Some 1).
Proof.
  intros Hr.
  assert (∀ s0, reachable s0 →
                _audioOutputNode s0 = 0%nat ∧
                gain_of s0 (_audioOutputNode s0) = Some 1) as bus.
  { intros s0 H0. apply reachable_inv in H0 as (_ & _ & Ho & Hb & _).
    split; [done|]. unfold gain_of. by rewrite Ho, Hb. }
  destruct (bus s Hr) as [Ho Hg]. split; [done|]. split; [done|]. split.
  - intros k Hk. apply reachable_inv in Hr as ((_ & Hlt & _) & _).
    specialize (Hlt k _ Hk). lia.
  - intros id muted.
    destruct (bus _ (reachable_call (SetMuted id muted) s Hr)) as [_ Hg'].
    by rewrite (call_audioOutputNode (SetMuted id muted) s) in Hg'.
Qed.

Lemma mix_bus_is_never_muted_witness :
  _audioOutputNode view5_and_mic1 = 0%nat ∧
  gain_of view5_and_mic1 (_audioOutputNode view5_and_mic1) = Some 1 ∧
  (∀ k : SourceKey,
     output_at view5_and_mic1 k ≠ Some (_audioOutputNode view5_and_mic1)) ∧
  (∀ (id : Z) (muted : bool),
     gain_of (exec (setMuted id muted) view5_and_mic1)
       (_audioOutputNode view5_and_mic1) = Some 1).
Proof. exact (mix_bus_is_never_muted view5_and_mic1 reachable_view5_and_mic1). Defined.

(** X3: in a reachable state, [setMuted] on one view leaves the gain of every
    other source, browser view or external device, as it was. *)
Theorem setMuted_leaves_other_sources_alone
    (s : State) (id : Z) (muted : bool) (k : SourceKey) (g : NodeRef) :
  reachable s →
  k ≠ inl id →
  output_at s k = Some g →
  gain_of (exec (setMuted id muted) s) g = gain_of s g.
Proof.
  intros Hr Hk Hg. apply reachable_inv in Hr as ((_ & _ & Hinj) & _).
  unfold exec. destruct (_mediaStreamOutputs s !! id) as [g0|] eqn:E.
  - rewrite (setMuted_registered _ _ _ _ E). apply gain_of_set_gain_ne.
    intros ->. apply Hk. by apply (Hinj k (inl id) g).
  - by rewrite (setMuted_unregistered _ _ _ E).
Qed.

Lemma reachable_view5_and_view7 : reachable view5_and_view7.
Proof.
  exact (reachable_call (StartBrowserViewStream 7 "h7" (GumResolved 2)) _
           reachable_view5_started).
Qed.

Lemma setMuted_leaves_other_sources_alone_witness :
  output_at view5_and_view7 (inl 7) = Some 3%nat ∧
  gain_of (exec (setMuted 5 true) view5_and_view7) 1%nat = Some 0 ∧
  gain_of (exec (setMuted 5 true) view5_and_view7) 3%nat
  = gain_of view5_and_view7 3%nat.
Proof.
  split; [reflexivity|]. split; [reflexivity|].
  apply (setMuted_leaves_other_sources_alone view5_and_view7 5 true (inl 7) 3%nat).
  - exact reachable_view5_and_view7.
  - discriminate.
  - reflexivity.
Defined.

Lemma alter_set_gain_over (v1 v2 : Z) (g : NodeRef) (ns : gmap NodeRef AudioNode) :
  alter (set_gain v2) g (alter (set_gain v1) g ns) = alter (set_gain v2) g ns.
Proof.
  apply map_eq. intros i. destruct (decide (g = i)) as [->|Hne].
  - rewrite !lookup_alter_eq. by destruct (ns !! i) as [[]|].
  - by rewrite !lookup_alter_ne.
Qed.

Lemma alter_set_gain_swap (v1 v2 : Z) (g1 g2 : NodeRef)
    (ns : gmap NodeRef AudioNode) :
  g1 ≠ g2 →
  alter (set_gain v1) g1 (alter (set_gain v2) g2 ns)
  = alter (set_gain v2) g2 (alter (set_gain v1) g1 ns).
Proof.
  intros Hne. apply map_eq. intros i.
  destruct (decide (g1 = i)) as [->|H1]; destruct (decide (g2 = i)) as [->|H2];
    try done;
    repeat first [rewrite lookup_alter_eq | rewrite lookup_alter_ne by done];
    done.
Qed.

(** X4: of two [setMuted] calls on the same id the last one wins: the state
    is the one the second call alone would leave.  So unmuting after muting
    brings a registered gain node back to 1. *)
Theorem setMuted_last_call_wins (id : Z) (m1 m2 : bool) (s : State) :
  exec (setMuted id m2) (exec (setMuted id m1) s) = exec (setMuted id m2) s ∧
  (∀ g : NodeRef,
     _mediaStreamOutputs s !! id = Some g →
     is_Some (gain_of s g) →
     gain_of (exec (setMuted id false) (exec (setMuted id true) s)) g = Some 1).
Proof.
  assert (∀ a b, exec (setMuted id b) (exec (setMuted id a) s)
                 = exec (setMuted id b) s) as last.
  { intros a b. unfold exec.
    destruct (_mediaStreamOutputs s !! id) as [g|] eqn:H.
    - rewrite (setMuted_registered _ a _ _ H).
      rewrite (setMuted_registered id b g) by exact H.
      rewrite (setMuted_registered _ b _ _ H).
      unfold set_nodes. simpl. by rewrite alter_set_gain_over.
    - by rewrite !(setMuted_unregistered _ _ _ H). }
  split; [apply last|].
  intros g H [v Hg]. rewrite last. unfold exec.
  rewrite (setMuted_registered _ _ _ _ H). by rewrite gain_of_set_gain, Hg.
Qed.

Lemma setMuted_last_call_wins_witness :
  gain_of (exec (setMuted 5 true) view5_started) 1%nat = Some 0 ∧
  gain_of (exec (setMuted 5 false) (exec (setMuted 5 true) view5_started)) 1%nat
  = Some 1.
Proof.
  split; [reflexivity|].
  apply (proj2 (setMuted_last_call_wins 5 true true view5_started) 1%nat).
  - reflexivity.
  - exists 1. reflexivity.
Defined.

Lemma exec_setMuted (id : Z) (muted : bool) (s : State) :
  exec (setMuted id muted) s
  = match _mediaStreamOutputs s !! id with
    | Some g => set_nodes (alter (set_gain (if muted then 0 else 1)) g (nodes s)) s
    | None => s
    end.
Proof.
  unfold exec. destruct (_mediaStreamOutputs s !! id) as [g|] eqn:H.
  - by rewrite (setMuted_registered _ _ _ _ H).
  - by rewrite (setMuted_unregistered _ _ _ H).
Qed.

(** X5: in a reachable state, [setMuted] calls on two different views
    commute. *)
Theorem setMuted_commutes_across_views (s : State) (id id' : Z) (m m' : bool) :
  reachable s →
  id ≠ id' →
  exec (setMuted id m) (exec (setMuted id' m') s)
  = exec (setMuted id' m') (exec (setMuted id m) s).
Proof.
  intros Hr Hne. apply reachable_inv in Hr as ((_ & _ & Hinj) & _).
  rewrite !exec_setMuted.
  destruct (_mediaStreamOutputs s !! id) as [g|] eqn:H;
    destruct (_mediaStreamOutputs s !! id') as [g'|] eqn:H';
    simpl; rewrite ?H, ?H'; try done.
  unfold set_nodes. simpl. rewrite alter_set_gain_swap; [done|].
  intros ->. apply Hne.
  assert (@inl Z string id = inl id') as E by (by apply (Hinj _ _ g')).
  by injection E.
Qed.

Lemma setMuted_commutes_across_views_witness :
  exec (setMuted 5 true) (exec (setMuted 7 false) view5_and_view7)
  = exec (setMuted 7 false) (exec (setMuted 5 true) view5_and_view7).
Proof.
  apply (setMuted_commutes_across_views view5_and_view7 5 7 true false).
  - exact reachable_view5_and_view7.
  - discriminate.
Defined.

(** ** Connections and tracks over a history of calls *)

(** X6: whatever calls and browser events follow, from any state, no
    connection of the audio graph is removed and no ended track becomes live
    again. *)
Theorem calls_never_disconnect_or_revive (cs : list Call) (s : State) :
  connections s ⊆ connections (run_calls cs s) ∧
  ended_tracks s ⊆ ended_tracks (run_calls cs s) ∧
  (∀ t : TrackRef,
     track_readyState s t = ended → track_readyState (run_calls cs s) t = ended).
Proof.
  assert (connections s ⊆ connections (run_calls cs s) ∧
          ended_tracks s ⊆ ended_tracks (run_calls cs s)) as [Hc He].
  { induction cs as [|c cs [IHc IHe]] using rev_ind; [done|].
    rewrite run_calls_snoc.
    destruct (call_connections_tracks c (run_calls cs s)) as (Hc & He & _).
    split; etrans; eauto. }
  split; [done|]. split; [done|].
  intros t. unfold track_readyState.
  destruct (decide (t ∈ ended_tracks s)) as [Hin|]; [|done]. intros _.
  destruct (decide (t ∈ ended_tracks (run_calls cs s))) as [|Hn]; [done|].
  destruct Hn. by apply He.
Qed.

Lemma stream_at_start_source (k k' : SourceKey) (h : string) (n : nat) (s : State) :
  stream_at (exec (start_source k h (GumResolved n)) s) k'
  = if decide (k' = k)
    then Some (mkMediaStream (next_stream s) (seq (next_track s) n))
    else stream_at s k'.
Proof.
  destruct k as [id|d], k' as [id'|d']; destruct n; simpl; try reflexivity;
    rewrite lookup_insert; repeat case_decide; congruence.
Qed.

Lemma start_source_tracks (k : SourceKey) (h : string) (n : nat) (s : State) :
  ended_tracks (exec (start_source k h (GumResolved n)) s) = ended_tracks s ∧
  next_track (exec (start_source k h (GumResolved n)) s) = (next_track s + n)%nat.
Proof. by destruct k, n. Qed.

Lemma exec_stop_source (k0 : SourceKey) (s : State) :
  ended_tracks (exec (stop_source k0) s)
  = match stream_at s k0 with
    | Some st => list_to_set (getTracks st) ∪ ended_tracks s
    | None => ended_tracks s
    end ∧
  ∀ k : SourceKey, k ≠ k0 → stream_at (exec (stop_source k0) s) k = stream_at s k.
Proof.
  destruct k0 as [id|d]; simpl; unfold exec.
  - destruct (_mediaStreams s !! id) as [st|] eqn:E.
    + rewrite (stopBrowserViewStream_active _ _ _ E). split; [done|].
      intros [id'|d'] Hk; simpl; [|done]. apply lookup_delete_ne. congruence.
    + by rewrite (stopBrowserViewStream_inactive _ _ E).
  - destruct (_externalAudioStreams s !! d) as [st|] eqn:E.
    + rewrite (stopExternalAudioCapture_active _ _ _ E). split; [done|].
      intros [id'|d'] Hk; simpl; [done|]. apply lookup_delete_ne. congruence.
    + by rewrite (stopExternalAudioCapture_inactive _ _ E).
Qed.

(** X8: in a reachable state, stopping one source leaves every other
    recorded source as it was: its stream record stays and each of its tracks
    keeps its ready state. *)
Theorem stop_leaves_other_sources_running
    (s : State) (k0 k : SourceKey) (st : MediaStream) (t : TrackRef) :
  reachable s →
  k ≠ k0 →
  stream_at s k = Some st →
  t ∈ getTracks st →
  stream_at (exec (stop_source k0) s) k = Some st ∧
  track_readyState (exec (stop_source k0) s) t = track_readyState s t.
Proof.
  intros Hr Hk Hst Ht. apply reachable_inv in Hr as (_ & (_ & Hdis) & _).
  destruct (exec_stop_source k0 s) as [He Hs].
  split; [by rewrite Hs|].
  unfold track_readyState. rewrite He.
  destruct (stream_at s k0) as [st0|] eqn:E; [|done].
  assert (t ∉ getTracks st0) as Hn.
  { intros Hin. apply Hk. by apply (Hdis k k0 st st0 t). }
  destruct (decide (t ∈ ended_tracks s)) as [Hin|Hnin].
  - rewrite decide_True; [done|]. by apply elem_of_union_r.
  - rewrite decide_False; [done|]. intros [H|H]%elem_of_union; [|done].
    by apply elem_of_list_to_set in H.
Qed.

Lemma stop_leaves_other_sources_running_witness :
  stream_at view5_and_mic1 (inr "mic-1") = Some (mkMediaStream 1 [1%nat]) ∧
  stream_at (exec (stopBrowserViewStream 5) view5_and_mic1) (inr "mic-1")
  = Some (mkMediaStream 1 [1%nat]) ∧
  track_readyState (exec (stopBrowserViewStream 5) view5_and_mic1) 1%nat = live ∧
  track_readyState (exec (stopBrowserViewStream 5) view5_and_mic1) 0%nat = ended.
Proof.
  destruct (stop_leaves_other_sources_running view5_and_mic1 (inl 5)
              (inr "mic-1") (mkMediaStream 1 [1%nat]) 1%nat) as [Hs Ht].
  - exact reachable_view5_and_mic1.
  - discriminate.
  - reflexivity.
  - by apply list_elem_of_singleton.
  - split; [reflexivity|]. split; [exact Hs|]. split; [|reflexivity].
    etrans; [exact Ht | reflexivity].
Defined.

(** X9: in a reachable state, starting a capture for an id whose recorded
    stream has a live track leaves that track without any record; whatever
    calls and events follow, it stays live. *)
Theorem restart_leaves_first_stream_running
    (s : State) (k : SourceKey) (h : string) (n : nat)
    (st : MediaStream) (t : TrackRef) (cs : list Call) :
  reachable s →
  stream_at s k = Some st →
  t ∈ getTracks st →
  track_readyState s t = live →
  track_readyState (run_calls cs (exec (start_source k h (GumResolved n)) s)) t
  = live.
Proof.
  intros Hr Hst Ht Hlive.
  apply reachable_inv in Hr as (_ & (Hlt & Hdis) & _).
  assert (orphaned (exec (start_source k h (GumResolved n)) s) t) as Ho.
  { destruct (start_source_tracks k h n s) as [He Hn].
    split; [|split].
    - rewrite Hn. specialize (Hlt k st t Hst Ht). lia.
    - rewrite He. unfold track_readyState in Hlive.
      by destruct (decide (t ∈ ended_tracks s)).
    - intros k' st'. rewrite stream_at_start_source. case_decide as E.
      + intros [= <-]. simpl. intros Hin%elem_of_seq_bounds.
        specialize (Hlt k st t Hst Ht). lia.
      + intros Hst' Hin. apply E. by apply (Hdis k' k st' st t). }
  apply (orphaned_run_calls cs) in Ho as (_ & Hnot & _).
  unfold track_readyState. by rewrite decide_False.
Qed.

Lemma restart_leaves_first_stream_running_witness :
  stream_at view5_started (inl 5) = Some (mkMediaStream 0 [0%nat]) ∧
  track_readyState
    (run_calls [StopBrowserViewStream 5; StopExternalAudioCapture "mic-1"]
       view5_started_twice) 0%nat = live ∧
  track_readyState
    (run_calls [StopBrowserViewStream 5; StopExternalAudioCapture "mic-1"]
       view5_started_twice) 1%nat = ended.
Proof.
  split; [reflexivity|]. split; [|reflexivity].
  apply (restart_leaves_first_stream_running view5_started (inl 5) "h2" 1
           (mkMediaStream 0 [0%nat]) 0%nat
           [StopBrowserViewStream 5; StopExternalAudioCapture "mic-1"]).
  - exact reachable_view5_started.
  - reflexivity.
  - by apply list_elem_of_singleton.
  - reflexivity.
Defined.

(** ** Start followed by stop *)



(** ** Streaming start, websocket and loopback *)

(** X10: when the worklet module fails to load, [start] throws that error
    after the stream-start message has gone out, and nothing else has
    changed: no worklet node, no connection.  A retry that succeeds sends the
    message a second time and adds one worklet node. *)
Theorem start_rejected_has_already_announced
    (mode : StreamingMode) (e : JsError) (s : State) :
  let s1 := exec (start mode (ModuleRejected e)) s in
  let s2 := exec (start mode ModuleLoaded) s1 in
  start mode (ModuleRejected e) s = Throw e s1 ∧
  s1 = set_ipc_log (ipc_log s ++ [stream_start_message]) s ∧
  ipc_log s2 = ipc_log s ++ [stream_start_message; stream_start_message] ∧
  nodes s2 = <[next_node s := AudioWorkletNode "pcm-stream"
                               (pcm_bufferSize (mode_string mode))]> (nodes s) ∧
  connections s2 = {[ (_audioOutputNode s, next_node s) ]} ∪ connections s.
Proof.
  intros s1 s2.
  assert (s1 = set_ipc_log (ipc_log s ++ [stream_start_message]) s) as E.
  { subst s1. unfold start, exec. rewrite _startBrowserStream_rejected.
    unfold stream_start_message. by rewrite <- FRAME_SIZE_value. }
  split; [|split; [exact E|]].
  - subst s1. unfold start, exec. by rewrite _startBrowserStream_rejected.
  - subst s2. unfold start, exec. rewrite _startBrowserStream_loaded.
    rewrite E. simpl. split; [|done].
    rewrite <- app_assoc. unfold stream_start_message.
    by rewrite <- FRAME_SIZE_value.
Qed.




Lemma call_audioOutputElement (c : Call) (s : State) :
  (is_Some (_audioOutputElement s) →
   is_Some (_audioOutputElement (exec (call c) s))) ∧
  (is_setup c = false →
   _audioOutputElement s = None →
   _audioOutputElement (exec (call c) s) = None).
Proof.
  destruct c as
    [port|mode [|e]|id muted|loopback|d [[|n]|e]|d|viewId h [[|n]|e]|viewId
    |[data|rs]| |code]; simpl call; try (split; [done|done]).
  - unfold setMuted. js_unfold. destruct (_mediaStreamOutputs s !! id); by split.
  - unfold setLoopback. js_unfold.
    destruct (_audioOutputElement s) eqn:E; simpl; rewrite ?E; split; try done;
      by eexists.
  - unfold exec. destruct (_externalAudioStreams s !! d) as [stream|] eqn:E.
    + rewrite (stopExternalAudioCapture_active _ _ _ E). by split.
    + rewrite (stopExternalAudioCapture_inactive _ _ E). by split.
  - unfold exec. destruct (_mediaStreams s !! viewId) as [stream|] eqn:E.
    + rewrite (stopBrowserViewStream_active _ _ _ E). by split.
    + rewrite (stopBrowserViewStream_inactive _ _ E). by split.
  - unfold pcm_onmessage. js_unfold.
    destruct (_ws s) as [w|]; [|by split]. destruct (readyState w); by split.
  - unfold ws_transition. js_unfold. destruct (_ws s); by split.
  - unfold onloadedmetadata. js_unfold.
    destruct (_audioOutputElement s) eqn:E; simpl; rewrite ?E; split; try done;
      by eexists.
Qed.


(** X13: as long as [setup] has not been called, whatever other calls and
    events have happened, [setLoopback] throws and leaves the state as it
    was. *)
Theorem setLoopback_throws_until_setup (cs : list Call) (loopback : bool) :
  forallb (λ c, negb (is_setup c)) cs = true →
  ∃ e : JsError,
    setLoopback loopback (run_calls cs constructor)
    = Throw e (run_calls cs constructor).
Proof.
  intros Hcs.
  assert (_audioOutputElement (run_calls cs constructor) = None) as Hel.
  { induction cs as [|c cs IH] using rev_ind; [done|].
    rewrite forallb_app in Hcs. apply andb_prop in Hcs as [Hcs Hc].
    simpl in Hc. rewrite run_calls_snoc.
    apply call_audioOutputElement; [|by apply IH].
    by destruct (is_setup c). }
  unfold setLoopback. js_unfold. rewrite Hel. by eexists.
Qed.

Lemma setLoopback_throws_until_setup_witness :
  ∃ e : JsError,
    setLoopback true
      (run_calls [StartBrowserViewStream 5 "h1" (GumResolved 1);
                  Start lowLatency ModuleLoaded] constructor)
    = Throw e
        (run_calls [StartBrowserViewStream 5 "h1" (GumResolved 1);
                    Start lowLatency ModuleLoaded] constructor).
Proof.
  apply (setLoopback_throws_until_setup
           [StartBrowserViewStream 5 "h1" (GumResolved 1);
            Start lowLatency ModuleLoaded] true).
  reflexivity.
Defined.

(** X14: of two [setLoopback] calls the last one wins; [setLoopback] and the
    element's [loadedmetadata] handler commute, and [setLoopback] leaves the
    element's playing state alone. *)
Theorem setLoopback_last_call_wins (b1 b2 : bool) (s : State) :
  exec (setLoopback b2) (exec (setLoopback b1) s) = exec (setLoopback b2) s ∧
  exec (setLoopback b2) (exec onloadedmetadata s)
  = exec onloadedmetadata (exec (setLoopback b2) s) ∧
  (paused <$> _audioOutputElement (exec (setLoopback b2) s))
  = (paused <$> _audioOutputElement s).
Proof.
  unfold setLoopback, onloadedmetadata. js_unfold.
  destruct (_audioOutputElement s) as [el|] eqn:E; simpl; rewrite ?E; done.
Qed.


(** * Properties of the browser view manager *)

Lemma Main_on_view_unknown (id : Z) (c : Main.WebContentsCall) (s : Main.State) :
  Main.views s !! id = None → Main.on_view id c s = s.
Proof. intros H. unfold Main.on_view. by rewrite H. Qed.

(** X16: a view id that is not in the registry is ignored: removing it and
    navigating it change nothing and make no Electron call.  After
    [removeBrowserView] the id is in that position, so removal is idempotent
    and later navigation of the removed view is ignored. *)
Theorem Main_unknown_view_is_ignored (id : Z) (url : string) :
  (∀ s : Main.State,
     Main.views s !! id = None →
     Main.removeBrowserView id s = s ∧
     Main.loadURL id url s = s ∧
     Main.goForward id s = s ∧
     Main.goBack id s = s ∧
     Main.reload id s = s) ∧
  (∀ s : Main.State,
     let s1 := Main.removeBrowserView id s in
     Main.views s1 !! id = None ∧
     Main.removeBrowserView id s1 = s1 ∧
     Main.loadURL id url s1 = s1 ∧
     Main.reload id s1 = s1).
Proof.
  assert (∀ s : Main.State,
            Main.views s !! id = None →
            Main.removeBrowserView id s = s ∧
            Main.loadURL id url s = s ∧
            Main.goForward id s = s ∧
            Main.goBack id s = s ∧
            Main.reload id s = s) as unknown.
  { intros s H. split; [unfold Main.removeBrowserView; by rewrite H|].
    unfold Main.loadURL, Main.goForward, Main.goBack, Main.reload.
    by rewrite !Main_on_view_unknown. }
  split; [exact unknown|].
  intros s s1.
  assert (Main.views s1 !! id = None) as H.
  { subst s1. unfold Main.removeBrowserView.
    destruct (Main.views s !! id) eqn:E; [apply lookup_delete_eq | done]. }
  destruct (unknown s1 H) as (H1 & H2 & _ & _ & H5). done.
Qed.

Lemma Main_unknown_view_is_ignored_witness :
  Main.views Main.one_view !! 2 = None ∧
  Main.loadURL 2 "https://example.org/next" Main.one_view = Main.one_view ∧
  Main.views (Main.removeBrowserView 1 Main.one_view) !! 1 = None ∧
  Main.reload 1 (Main.removeBrowserView 1 Main.one_view)
  = Main.removeBrowserView 1 Main.one_view.
Proof.
  destruct (Main_unknown_view_is_ignored 2 "https://example.org/next")
    as [Hunknown _].
  destruct (Main_unknown_view_is_ignored 1 "https://example.org/next")
    as [_ Hremoved].
  destruct (Hunknown Main.one_view eq_refl) as (_ & Hload & _).
  destruct (Hremoved Main.one_view) as (Hnone & _ & _ & Hreload).
  split; [reflexivity|]. split; [exact Hload|]. split; [exact Hnone | exact Hreload].
Defined.

(** X17: [createBrowserView] returns the id of the new view's [webContents]
    and files the view under it.  When that id was not in the registry,
    removing the returned id brings the registry back to what it was, with
    one more Electron call, the window's [removeBrowserView] of that view. *)
Theorem Main_create_then_remove (url : string) (xOffset id : Z) (s : Main.State) :
  Main.views s !! id = None →
  let r := fst (Main.createBrowserView url xOffset id s) in
  let s1 := snd (Main.createBrowserView url xOffset id s) in
  r = id ∧
  Main.views s1 !! r = Some (Main.mkBrowserView id) ∧
  Main.views (Main.removeBrowserView r s1) = Main.views s ∧
  Main.outputStream (Main.removeBrowserView r s1) = Main.outputStream s ∧
  Main.electron (Main.removeBrowserView r s1)
  = Main.electron s1 ++ [Main.WindowRemoveBrowserView (Main.mkBrowserView id)].
Proof.
  intros H r s1.
  assert (Main.views s1 !! id = Some (Main.mkBrowserView id)) as E
    by apply lookup_insert_eq.
  split; [done|]. split; [exact E|].
  subst r. simpl fst. unfold Main.removeBrowserView. rewrite E. simpl.
  split; [by apply delete_insert_id | done].
Qed.

Lemma Main_create_then_remove_witness :
  Main.views (Main.removeBrowserView 1 Main.one_view) = Main.views Main.constructor.
Proof.
  destruct (Main_create_then_remove "https://example.org" 120 1 Main.constructor)
    as (_ & _ & H & _); [reflexivity|]. exact H.
Defined.

Lemma Main_run_snoc (ms : list Main.IpcMain) (m : Main.IpcMain) (s : Main.State) :
  Main.run (ms ++ [m]) s = snd (Main.on m (Main.run ms s)).
Proof. unfold Main.run. by rewrite foldl_app. Qed.

Lemma Main_on_setBounds (m : Main.IpcMain) (s : Main.State)
    (v : Main.BrowserView) (b : Main.Rectangle) :
  Main.ViewSetBounds v b ∈ Main.electron (snd (Main.on m s)) →
  Main.ViewSetBounds v b ∈ Main.electron s ∨ b = Main.view_bounds.
Proof.
  destruct m as [data|url x id|id|id url|id|id|id]; simpl.
  - auto.
  - rewrite !elem_of_app, !list_elem_of_singleton.
    intros [[[[[H|H]|H]|H]|H]|H]; auto; try discriminate H.
    injection H as _ ->. by right.
  - unfold Main.removeBrowserView. destruct (Main.views s !! id) eqn:E; [|auto].
    simpl. rewrite elem_of_app, list_elem_of_singleton. intros [H|H]; auto.
    discriminate H.
  - unfold Main.loadURL, Main.on_view. destruct (Main.views s !! id) eqn:E; [|auto].
    simpl. rewrite elem_of_app, list_elem_of_singleton. intros [H|H]; auto.
    discriminate H.
  - unfold Main.goForward, Main.on_view. destruct (Main.views s !! id) eqn:E; [|auto].
    simpl. rewrite elem_of_app, list_elem_of_singleton. intros [H|H]; auto.
    discriminate H.
  - unfold Main.goBack, Main.on_view. destruct (Main.views s !! id) eqn:E; [|auto].
    simpl. rewrite elem_of_app, list_elem_of_singleton. intros [H|H]; auto.
    discriminate H.
  - unfold Main.reload, Main.on_view. destruct (Main.views s !! id) eqn:E; [|auto].
    simpl. rewrite elem_of_app, list_elem_of_singleton. intros [H|H]; auto.
    discriminate H.
Qed.

(** X18: [createBrowserView] does not use its [xOffset] argument: the result
    is the same for any two offsets, and over any run of messages from a new
    manager every [setBounds] call gives the view the same rectangle, x 30,
    y 0, 400 wide and 500 high. *)
Theorem Main_createBrowserView_ignores_xOffset :
  (∀ (url : string) (x1 x2 id : Z) (s : Main.State),
     Main.createBrowserView url x1 id s = Main.createBrowserView url x2 id s) ∧
  (∀ (ms : list Main.IpcMain) (v : Main.BrowserView) (b : Main.Rectangle),
     Main.ViewSetBounds v b ∈ Main.electron (Main.run ms Main.constructor) →
     b = Main.mkRectangle 30 0 400 500).
Proof.
  split; [reflexivity|].
  intros ms. induction ms as [|m ms IH] using rev_ind; intros v b.
  - simpl. by intros ?%elem_of_nil.
  - rewrite Main_run_snoc. intros H.
    apply Main_on_setBounds in H as [H|H]; [by eapply IH | exact H].
Qed.

Lemma Main_createBrowserView_ignores_xOffset_witness :
  Main.ViewSetBounds (Main.mkBrowserView 1) (Main.mkRectangle 30 0 400 500)
  ∈ Main.electron Main.one_view.
Proof.
  assert (∃ b, Main.ViewSetBounds (Main.mkBrowserView 1) b
               ∈ Main.electron Main.one_view) as [b Hb].
  { eexists. unfold Main.one_view. simpl.
    apply list_elem_of_lookup. by exists 2%nat. }
  destruct Main_createBrowserView_ignores_xOffset as [_ H].
  pose proof (H [Main.On_createBrowserView "https://example.org" 120 1]
                (Main.mkBrowserView 1) b Hb) as E.
  by rewrite <- E.
Defined.

(** X19: over any run of messages the output stream receives exactly the
    chunks of the ["browserViewStream"] messages, unchanged and in arrival
    order, after what it held before; no other message writes to it. *)
Theorem Main_outputStream_keeps_order (ms : list Main.IpcMain) (s : Main.State) :
  Main.outputStream (Main.run ms s) = Main.outputStream s ++ Main.chunks_of ms.
Proof.
  induction ms as [|m ms IH] using rev_ind.
  - simpl. by rewrite app_nil_r.
  - rewrite Main_run_snoc. unfold Main.chunks_of. rewrite omap_app.
    fold (Main.chunks_of ms). rewrite app_assoc, <- IH.
    destruct m as [data|url x id|id|id url|id|id|id]; simpl;
      rewrite ?app_nil_r; try done.
    + unfold Main.removeBrowserView.
      by destruct (Main.views (Main.run ms s) !! id).
    + unfold Main.loadURL, Main.on_view.
      by destruct (Main.views (Main.run ms s) !! id).
    + unfold Main.goForward, Main.on_view.
      by destruct (Main.views (Main.run ms s) !! id).
    + unfold Main.goBack, Main.on_view.
      by destruct (Main.views (Main.run ms s) !! id).
    + unfold Main.reload, Main.on_view.
      by destruct (Main.views (Main.run ms s) !! id).
Qed.

Lemma Main_views_keyed (ms : list Main.IpcMain) (id : Z) (v : Main.BrowserView) :
  Main.views (Main.run ms Main.constructor) !! id = Some v →
  v = Main.mkBrowserView id.
Proof.
  revert id v. induction ms as [|m ms IH] using rev_ind; intros id v.
  - simpl. by rewrite lookup_empty.
  - rewrite Main_run_snoc.
    destruct m as [data|url x id0|id0|id0 url|id0|id0|id0]; simpl.
    + apply IH.
    + rewrite lookup_insert. case_decide; [|apply IH]. by intros [= <-]; subst.
    + unfold Main.removeBrowserView.
      destruct (Main.views (Main.run ms Main.constructor) !! id0) eqn:E;
        [|apply IH].
      simpl. intros H. apply lookup_delete_Some in H as [_ H]. by apply IH.
    + unfold Main.loadURL, Main.on_view.
      destruct (Main.views (Main.run ms Main.constructor) !! id0); apply IH.
    + unfold Main.goForward, Main.on_view.
      destruct (Main.views (Main.run ms Main.constructor) !! id0); apply IH.
    + unfold Main.goBack, Main.on_view.
      destruct (Main.views (Main.run ms Main.constructor) !! id0); apply IH.
    + unfold Main.reload, Main.on_view.
      destruct (Main.views (Main.run ms Main.constructor) !! id0); apply IH.
Qed.

(** X20: after any run of messages to a new manager, a navigation request
    for a view id makes exactly one call, on the [webContents] of the view
    with that id, when the id is in the registry, and none otherwise; the
    registry and the output stream are left as they were. *)
Theorem Main_navigation_reaches_the_named_view
    (ms : list Main.IpcMain) (id : Z) (url : string) :
  let s := Main.run ms Main.constructor in
  let sent (c : Main.WebContentsCall) : list Main.ElectronCall :=
    match Main.views s !! id with
    | Some _ => [Main.WebContents (Main.mkBrowserView id) c]
    | None => []
    end in
  Main.loadURL id url s
  = Main.mkState (Main.views s) (Main.outputStream s)
      (Main.electron s ++ sent (Main.LoadURL url)) ∧
  Main.goForward id s
  = Main.mkState (Main.views s) (Main.outputStream s)
      (Main.electron s ++ sent Main.GoForward) ∧
  Main.goBack id s
  = Main.mkState (Main.views s) (Main.outputStream s)
      (Main.electron s ++ sent Main.GoBack) ∧
  Main.reload id s
  = Main.mkState (Main.views s) (Main.outputStream s)
      (Main.electron s ++ sent Main.Reload).
Proof.
  intros s sent.
  assert (∀ c, Main.on_view id c s
               = Main.mkState (Main.views s) (Main.outputStream s)
                   (Main.electron s ++ sent c)) as H.
  { intros c. subst sent. unfold Main.on_view.
    destruct (Main.views s !! id) as [v|] eqn:E.
    - by rewrite (Main_views_keyed ms id v E).
    - rewrite app_nil_r. by destruct s. }
  unfold Main.loadURL, Main.goForward, Main.goBack, Main.reload.
  by rewrite !H.
Qed.
